(** * ATSC Viterbi decoder block (gr-dtv, atsc_viterbi_decoder_impl.cc)

    A shallow embedding of [atsc_viterbi_decoder_impl]: its constructor,
    [reset], [decoder_metrics] and [work], together with the collaborators
    the block calls (the per-encoder Viterbi decoders, the interleaver
    fifos, the interleave tables and the plinfo side information).

    Integers of the C++ code are [Z]; [/] and [%] are [Z.quot] and [Z.rem];
    the store into an [unsigned char] reduces modulo 256.  Arrays are lists
    indexed with stdpp's lookup; an access outside an array is undefined
    behaviour in C++ and is reported here as the failure [out_of_bounds]. *)

From stdpp Require Import base option list gmap strings.
From Stdlib Require Import ZArith Lia.

Local Open Scope Z_scope.

(** ** Constants of the headers *)

(** Modelled from the spec: [NCODERS] (atsc_viterbi_decoder_impl.h is not
    among the sources); the spec fixes twelve encoders throughout. *)
Definition NCODERS : Z := 12.

(** Modelled from the spec: [ATSC_DATA_SEGMENT_LENGTH] (atsc_types.h); a
    segment is 832 samples, the constant the source also writes as the
    literal [832] when it splits a table entry. *)
Definition ATSC_DATA_SEGMENT_LENGTH : Z := 832.

(** Modelled from the spec: [enco_which_max] (atsc_viterbi_mux.h), the K of
    the spec: 832 samples per segment less the 4 sync symbols. *)
Definition enco_which_max : Z := 828.

(** Modelled from the spec: [ATSC_MPEG_RS_ENCODED_LENGTH], the byte length
    of one packed output segment: 828 dibits of two bits each. *)
Definition ATSC_MPEG_RS_ENCODED_LENGTH : Z := 207.

(** Modelled from the spec: [OUTPUT_SIZE], the packed output of one batch
    of twelve segments. *)
Definition OUTPUT_SIZE : Z := ATSC_MPEG_RS_ENCODED_LENGTH * 12.

(** Bounds-checked read of a C array held as a list. *)
Definition zlookup {A} (l : list A) (z : Z) : option A :=
  if decide (0 <= z) then l !! Z.to_nat z else None.

(** ** The interleaver fifo *)

(** Modelled from the spec: the delay-compensation queue
    (interleaver_fifo) is not among the sources.  Section 4.3 of the spec
    gives its contract: a circular buffer of fixed size, [stuff] stores the
    new dibit in the slot it returns the oldest dibit from and advances
    with wraparound, [reset] clears the buffer to the initial fill value
    and rewinds the position.  A queue without slots buffers nothing, so
    the oldest dibit is the one just pushed. *)
Record fifo_t := {
  m_size : Z;
  m_position : nat;
  m_fifo : list Z
}.

Definition fifo_fill : Z := 0.

Definition fifo_new (size : Z) : fifo_t :=
  {| m_size := size; m_position := 0;
     m_fifo := replicate (Z.to_nat size) fifo_fill |}.

Definition fifo_reset (q : fifo_t) : fifo_t :=
  {| m_size := m_size q; m_position := 0;
     m_fifo := replicate (Z.to_nat (m_size q)) fifo_fill |}.

Definition fifo_stuff (q : fifo_t) (input : Z) : Z * fifo_t :=
  if decide (m_size q <= 0) then (input, q)
  else
    let retval := default fifo_fill (m_fifo q !! m_position q) in
    let next := S (m_position q) in
    (retval,
     {| m_size := m_size q;
        m_position := if decide (m_size q <= Z.of_nat next) then 0%nat else next;
        m_fifo := <[m_position q := input]> (m_fifo q) |}).

(** Feeding a sequence of dibits, collecting what comes out. *)
Fixpoint fifo_feed (q : fifo_t) (ds : list Z) : list Z * fifo_t :=
  match ds with
  | [] => ([], q)
  | d :: ds' =>
      let '(o, q1) := fifo_stuff q d in
      let '(os, q2) := fifo_feed q1 ds' in
      (o :: os, q2)
  end.

(** The buffer and the position agree with the declared size. *)
Definition fifo_wf (q : fifo_t) : Prop :=
  length (m_fifo q) = Z.to_nat (m_size q) /\
  (m_position q < length (m_fifo q) \/ m_position q = 0)%nat.

(** The buffered dibits, oldest first. *)
Definition fifo_contents (q : fifo_t) : list Z :=
  drop (m_position q) (m_fifo q) ++ take (m_position q) (m_fifo q).

(** ** Collaborators of the block *)

(** Modelled from the spec: atsc_single_viterbi is not among the sources.
    Sections 4.2 and 9 of the spec give its contract: every decoder owns an
    opaque trellis state, [decode] consumes one sample and returns one
    dibit, and [delay] is the decoder's fixed decode delay.  [viterbi_new i]
    is the state of [viterbi[i]] after construction. *)
Class atsc_single_viterbi := {
  sample : Type;
  vstate : Type;
  viterbi_new : nat -> vstate;
  decode : vstate -> sample -> Z * vstate;
  delay : vstate -> Z
}.

(** The interleave tables of atsc_viterbi_mux.h, which is not among the
    sources: they are parameters of the development. *)
Class atsc_viterbi_mux := {
  enco_which_syms : nat -> nat -> Z;
  enco_which_dibits : nat -> nat -> Z
}.

(** Modelled from the spec: plinfo (atsc_types.h) is not among the sources.
    The tag encodes the segment index, the field index and the field-sync
    flag; [plinfo_delay] advances the segment index modulo the number of
    segments per field and adjusts the field index for the wraparound.
    The layout of the tag value and the number of segments per field are
    parameters. *)
Record plinfo := {
  segno : Z;
  field : Z;
  field_sync : bool
}.

Class atsc_types := {
  segs_per_field : Z;
  get_tag_value : plinfo -> Z;
  from_tag_value : Z -> plinfo
}.

Definition plinfo_delay `{atsc_types} (pli_in : plinfo) (nsegs_of_delay : Z)
    : plinfo :=
  let s := segno pli_in + nsegs_of_delay in
  {| segno := s `mod` segs_per_field;
     field := field pli_in + s `div` segs_per_field;
     field_sync := field_sync pli_in |}.

(** Modelled from the spec: the tags of the runtime, which is not among the
    sources.  Section 9 of the spec has them as pairs of a stream position
    and a value, looked up by position; the key selects the plinfo tags. *)
Record tag_t := {
  offset : Z;
  key : string;
  value : Z
}.

(** Modelled from the spec: the tags of key [k] whose position lies in the
    window from [rel_start] up to, not including, [rel_end], counted from
    [nitems_read]. *)
Definition get_tags_in_window (tags : list tag_t) (nitems_read : Z)
    (rel_start rel_end : Z) (k : string) : list tag_t :=
  filter (fun t => nitems_read + rel_start <= offset t < nitems_read + rel_end
                   /\ key t = k) tags.

(** Modelled from the spec: attaching a tag at an absolute position of the
    output stream. *)
Definition add_item_tag (tags : list tag_t) (abs_offset : Z) (k : string)
    (v : Z) : list tag_t :=
  tags ++ [{| offset := abs_offset; key := k; value := v |}].

(** ** Failures and loops *)

Inductive failure :=
  | assertion_failed
  | runtime_error (what : string)
  | out_of_bounds.

Inductive outcome :=
  | returned (n : Z)
  | raised (e : failure).

(** A [for] loop over the given indices; the state reached is kept when the
    body fails, as an exception leaves the object as it is. *)
Fixpoint for_each {X S} (xs : list X) (body : X -> S -> option failure * S)
    (s : S) : option failure * S :=
  match xs with
  | [] => (None, s)
  | x :: xs' =>
      match body x s with
      | (None, s') => for_each xs' body s'
      | stop => stop
      end
  end.

(** [memcpy] of [n] bytes from [src + s] to [dst + d]. *)
Fixpoint memcpy (n : nat) (dst : gmap Z Z) (d : Z) (src : list Z) (s : Z)
    : option (gmap Z Z) :=
  match n with
  | O => Some dst
  | S n' =>
      match zlookup src s with
      | Some b => memcpy n' (<[d := b]> dst) (d + 1) src (s + 1)
      | None => None
      end
  end.

(** The read-modify-write of one dibit, stored back into an unsigned char:
    [(old & ~(0x03 << shift)) | (dibit << shift)]. *)
Definition store_dibit (old shift dibit : Z) : Z :=
  (Z.lor (Z.land old (Z.lnot (Z.shiftl 3 shift))) (Z.shiftl dibit shift)) `mod` 256.

(** ** The build *)

(** [assert] is a macro of the C library: it checks its condition where
    assertions are compiled in and expands to nothing in a build that
    defines NDEBUG. *)
Class build_options := {
  NDEBUG : bool
}.

(** ** Bits of the packed bytes *)

(** Bit [n] of a packed byte array, counted from bit 0 of byte 0. *)
Definition bit_of (bytes : list Z) (n : Z) : bool :=
  match bytes !! Z.to_nat (n `div` 8) with
  | Some byte => Z.testbit byte (n `mod` 8)
  | None => false
  end.

(** The bit pair at offset [b] holds the dibit [r]. *)
Definition pair_holds (bytes : list Z) (b r : Z) : Prop :=
  bit_of bytes b = Z.testbit r 0 /\ bit_of bytes (b + 1) = Z.testbit r 1.

Definition is_dibit (d : Z) : Prop := 0 <= d < 4.

(** The dibit that the fifo of [e] returns in slot [k] of a batch: the
    dibits it held, then those of the batch. *)
Definition stuffed (ff : list fifo_t) (dibits : list (list Z)) (e k : nat)
    : option Z :=
  q ← ff !! e; row ← dibits !! e; (fifo_contents q ++ row) !! k.

(** ** The block *)

Section Block.

Context {V : atsc_single_viterbi} {M : atsc_viterbi_mux} {T : atsc_types}
        {B : build_options}.

(** The members [viterbi] and [fifo]. *)
Record core := {
  viterbi : list vstate;
  fifo : list fifo_t
}.

(** What one call of [work] reads. *)
Record work_io := {
  in_ : list sample;
  in_tags : list tag_t;
  nitems_read : Z;
  nitems_written : Z
}.

(** What one call of [work] changes: the block itself, the local
    [out_copy], the output buffer (byte offsets from [out]) and the tags
    attached to the output. *)
Record frame := {
  self : core;
  out_copy : list Z;
  out : gmap Z Z;
  out_tags : list tag_t
}.

Definition tag_pmt : string := "plinfo".

Definition encoders : list nat := seq 0 (Z.to_nat NCODERS).
Definition slots : list nat := seq 0 (Z.to_nat enco_which_max).

(** [reset]: the loop over [fifo[i].reset()]. *)
Definition reset (c : core) : core :=
  {| viterbi := viterbi c;
     fifo := foldl (fun fs i => alter fifo_reset i fs) (fifo c) encoders |}.

(** The constructor: one [fifo_size] from [viterbi[0].delay()], twelve fifos
    of that size, then [reset]. *)
Definition atsc_viterbi_decoder_impl_new : core :=
  let fifo_size := ATSC_DATA_SEGMENT_LENGTH - 4 - delay (viterbi_new 0%nat) in
  reset {| viterbi := viterbi_new <$> encoders;
           fifo := foldl (fun fs _ => fs ++ [fifo_new fifo_size]) [] encoders |}.

(** [symbols[encoder][k] = in[...]] *)
Definition gather_index (i : Z) (encoder k : nat) : Z :=
  (i + Z.quot (enco_which_syms encoder k) 832) * ATSC_DATA_SEGMENT_LENGTH
  + Z.rem (enco_which_syms encoder k) 832.

Definition gather (inp : list sample) (i : Z) : option (list (list sample)) :=
  mapM (fun encoder => mapM (fun k => zlookup inp (gather_index i encoder k)) slots)
       encoders.

(** [dibits[encoder][k] = viterbi[encoder].decode(symbols[encoder][k])] *)
Fixpoint decode_run (v : vstate) (row : list sample) : list Z * vstate :=
  match row with
  | [] => ([], v)
  | x :: row' =>
      let '(d, v1) := decode v x in
      let '(ds, v2) := decode_run v1 row' in
      (d mod 256 :: ds, v2)
  end.

Definition decode_encoder (symbols : list (list sample)) (encoder : nat)
    (st : list vstate * list (list Z)) : option failure * (list vstate * list (list Z)) :=
  match st.1 !! encoder, symbols !! encoder with
  | Some v, Some row =>
      let '(ds, v') := decode_run v row in
      (None, (<[encoder := v']> st.1, st.2 ++ [ds]))
  | _, _ => (Some out_of_bounds, st)
  end.

(** The body of the packing loop. *)
Definition pack_dibit (dibits : list (list Z)) (encoder k : nat)
    (st : list fifo_t * list Z) : option failure * (list fifo_t * list Z) :=
  let dbwhere := enco_which_dibits encoder k in
  let dbindex := Z.shiftr dbwhere 3 in
  let shift := Z.land dbwhere 7 in
  match dibits !! encoder ≫= (.!! k), st.1 !! encoder, zlookup st.2 dbindex with
  | Some d, Some q, Some old =>
      let '(r, q') := fifo_stuff q d in
      (None, (<[encoder := q']> st.1,
              <[Z.to_nat dbindex := store_dibit old shift r]> st.2))
  | _, _, _ => (Some out_of_bounds, st)
  end.

(** Where segment [j] of the batch at [i] goes in [out], and where it
    comes from in [out_copy]. *)
Definition out_index (i j : Z) : Z :=
  (i * NCODERS + j) * ATSC_MPEG_RS_ENCODED_LENGTH.

Definition out_copy_index (j : Z) : Z := Z.quot (j * OUTPUT_SIZE) NCODERS.

(** The body of the copy loop, for segment [j] of the batch at [i]. *)
Definition copy_segment (io : work_io) (i : Z) (jn : nat) (f : frame)
    : option failure * frame :=
  let j := Z.of_nat jn in
  match get_tags_in_window (in_tags io) (nitems_read io) (i + j) (i + j + 1) tag_pmt with
  | [] => (Some (runtime_error "No plinfo on tag"), f)
  | t :: _ =>
      let pli_in := from_tag_value (value t) in
      match memcpy (Z.to_nat ATSC_MPEG_RS_ENCODED_LENGTH)
                   (out f) (out_index i j) (out_copy f) (out_copy_index j) with
      | None => (Some out_of_bounds, f)
      | Some out' =>
          let pli_out := plinfo_delay pli_in NCODERS in
          (None, {| self := self f; out_copy := out_copy f; out := out';
                    out_tags := add_item_tag (out_tags f)
                                  (nitems_written io + i + j) tag_pmt
                                  (get_tag_value pli_out) |})
      end
  end.

(** One turn of the outer loop of [work]. *)
Definition work_batch (io : work_io) (i : Z) (f : frame) : option failure * frame :=
  match gather (in_ io) i with
  | None => (Some out_of_bounds, f)
  | Some symbols =>
      match for_each encoders (decode_encoder symbols) (viterbi (self f), []) with
      | (Some e, (vit, _)) =>
          (Some e, {| self := {| viterbi := vit; fifo := fifo (self f) |};
                      out_copy := out_copy f; out := out f; out_tags := out_tags f |})
      | (None, (vit, dibits)) =>
          match for_each encoders
                  (fun encoder => for_each slots (pack_dibit dibits encoder))
                  (fifo (self f), out_copy f) with
          | (Some e, (ff, oc)) =>
              (Some e, {| self := {| viterbi := vit; fifo := ff |};
                          out_copy := oc; out := out f; out_tags := out_tags f |})
          | (None, (ff, oc)) =>
              for_each encoders (copy_segment io i)
                {| self := {| viterbi := vit; fifo := ff |};
                   out_copy := oc; out := out f; out_tags := out_tags f |}
          end
      end
  end.

(** The values [i] takes in [for (i = 0; i < noutput_items; i += NCODERS)]. *)
Definition batch_starts (noutput_items : Z) : list Z :=
  (fun b : nat => Z.of_nat b * NCODERS)
    <$> seq 0 (Z.to_nat ((noutput_items + (NCODERS - 1)) `div` NCODERS)).

(** [work].  Where assertions are compiled in, a failing [assert] ends
    the call before anything is read; with NDEBUG the loop runs for any
    [noutput_items].  [out_copy] starts with whatever the frame holds, as
    the local array is not initialised. *)
Definition work (io : work_io) (noutput_items : Z) (f : frame) : outcome * frame :=
  if decide (NDEBUG = false /\ Z.rem noutput_items NCODERS <> 0) then
    (raised assertion_failed, f)
  else
    match for_each (batch_starts noutput_items) (work_batch io) f with
    | (None, f') => (returned noutput_items, f')
    | (Some e, f') => (raised e, f')
    end.

(** [decoder_metrics]: a vector of [NCODERS] floats, then entry [i] is set
    to [viterbi[i].best_state_metric()].  The float type, the zero the
    vector is created with and [best_state_metric] belong to the absent
    atsc_single_viterbi: they are parameters. *)
Definition decoder_metrics {metric : Type} (zero : metric)
    (best_state_metric : vstate -> metric) (c : core)
    : option failure * list metric :=
  for_each encoders
    (fun i metrics =>
       match viterbi c !! i with
       | Some v => (None, <[i := best_state_metric v]> metrics)
       | None => (Some out_of_bounds, metrics)
       end)
    (replicate (Z.to_nat NCODERS) zero).

(** ** Vocabulary of the statements *)

(** The two member arrays have [NCODERS] entries and [out_copy] has
    [OUTPUT_SIZE] bytes, as their C++ types say. *)
Definition wf_core (c : core) : Prop :=
  length (viterbi c) = Z.to_nat NCODERS /\ length (fifo c) = Z.to_nat NCODERS.

Definition wf_frame (f : frame) : Prop :=
  wf_core (self f) /\ length (out_copy f) = Z.to_nat OUTPUT_SIZE.

(** What the code needs of the absent tables to stay inside its arrays. *)
Definition syms_in_range : Prop :=
  forall encoder k : nat, (encoder < 12)%nat -> (k < 828)%nat ->
    0 <= enco_which_syms encoder k < NCODERS * ATSC_DATA_SEGMENT_LENGTH.

Definition dibits_in_range : Prop :=
  forall encoder k : nat, (encoder < 12)%nat -> (k < 828)%nat ->
    0 <= enco_which_dibits encoder k < 8 * OUTPUT_SIZE.

(** The tag [work] reads at relative input position [q] ([tags[0]]), and
    the tag it attaches for it. *)
Definition first_tag (io : work_io) (q : Z) : option tag_t :=
  head (get_tags_in_window (in_tags io) (nitems_read io) q (q + 1) tag_pmt).

Definition out_tag (io : work_io) (q : Z) : option tag_t :=
  (fun t => {| offset := nitems_written io + q; key := tag_pmt;
               value := get_tag_value (plinfo_delay (from_tag_value (value t)) NCODERS) |})
    <$> first_tag io q.

Definition emitted_tags (io : work_io) (a len : nat) : list tag_t :=
  omap (fun q : nat => out_tag io (Z.of_nat q)) (seq a len).

(** The byte offset in [out] at which the segment of relative position [q]
    is stored, and the bytes of [out] taken by positions [a .. a + len - 1]. *)
Definition segment_start (q : Z) : Z :=
  out_index (q `div` NCODERS * NCODERS) (q `mod` NCODERS).

Definition written (a len : nat) (x : Z) : Prop :=
  exists q : nat, (a <= q < a + len)%nat /\
    segment_start (Z.of_nat q) <= x
      < segment_start (Z.of_nat q) + ATSC_MPEG_RS_ENCODED_LENGTH.

(** The answer of a loop that was to copy [total] positions and found
    tags on the first [m] of them. *)
Definition tag_outcome (m total : nat) : option failure :=
  if decide (m = total) then None else Some (runtime_error "No plinfo on tag").

(** What has happened to a frame [f] when the positions [a .. a + len - 1]
    have been copied out. *)
Definition copied (io : work_io) (a len : nat) (f f' : frame) : Prop :=
  out_tags f' = out_tags f ++ emitted_tags io a len /\
  (forall x, written a len x -> is_Some (out f' !! x)) /\
  (forall x, ~ written a len x -> out f' !! x = out f !! x).

(** Two states of the block with as many decoders and with fifos of the
    same capacities. *)
Definition same_shape (c c' : core) : Prop :=
  length (viterbi c') = length (viterbi c) /\
  m_size <$> fifo c' = m_size <$> fifo c.

(** The size every fifo is built with. *)
Definition fifo_size : Z :=
  ATSC_DATA_SEGMENT_LENGTH - 4 - delay (viterbi_new 0%nat).

(** The states of the block over its lifetime. *)
Inductive reachable : core -> Prop :=
  | reachable_new : reachable atsc_viterbi_decoder_impl_new
  | reachable_reset c : reachable c -> reachable (reset c)
  | reachable_work c io n oc o ts :
      reachable c ->
      reachable (self (work io n {| self := c; out_copy := oc; out := o;
                                    out_tags := ts |}).2).

(** The block after every decoder has consumed its row of [symbols] and
    every fifo the dibits its decoder returned for that row. *)
Definition advance (c : core) (symbols : list (list sample)) : core :=
  {| viterbi := zip_with (fun v row => (decode_run v row).2) (viterbi c) symbols;
     fifo := zip_with (fun q ds => (fifo_feed q ds).2) (fifo c)
               (zip_with (fun v row => (decode_run v row).1) (viterbi c) symbols) |}.

(** Modelled from the spec: the block is a sync block, one output segment
    per input segment, so after a call that returned [n] the runtime (not
    among the sources) hands the next call the input behind the [n]
    segments consumed, with both item counters advanced by [n]; the tags
    stay at their stream positions. *)
Definition next_call (io : work_io) (n : Z) : work_io :=
  {| in_ := drop (Z.to_nat (n * ATSC_DATA_SEGMENT_LENGTH)) (in_ io);
     in_tags := in_tags io;
     nitems_read := nitems_read io + n;
     nitems_written := nitems_written io + n |}.

(** A call for [n] segments cut down to its own window: the samples of
    these segments and the plinfo tags attached to them. *)
Definition in_window (io : work_io) (n : Z) : work_io :=
  {| in_ := take (Z.to_nat (n * ATSC_DATA_SEGMENT_LENGTH)) (in_ io);
     in_tags := filter (fun t => nitems_read io <= offset t < nitems_read io + n
                                 /\ key t = tag_pmt) (in_tags io);
     nitems_read := nitems_read io;
     nitems_written := nitems_written io |}.

(** The first [m] positions of the call carry a tag, and the tags made
    from them are what the frame [f'] has more than [f]. *)
Definition tagged_prefix (io : work_io) (f : frame) (m : nat) (f' : frame) : Prop :=
  (forall q, (q < m)%nat -> is_Some (first_tag io (Z.of_nat q))) /\
  out_tags f' = out_tags f ++ emitted_tags io 0 m.

(** The decoders are the elements of one array of one class: they are
    built with one decode delay, and decoding does not change the delay of
    a decoder. *)
Definition one_delay : Prop :=
  (forall i : nat, delay (viterbi_new i) = delay (viterbi_new 0%nat)) /\
  (forall (v : vstate) (x : sample), delay (decode v x).2 = delay v).

(** What the block needs of the absent decoders for its packing: [decode]
    returns a dibit, whatever the state and the sample. *)
Definition decoders_give_dibits : Prop :=
  forall (v : vstate) (x : sample), is_dibit (decode v x).1.

(** A table of bit pairs, as the spec describes the absent
    [enco_which_dibits]: every entry is an even bit offset and no two
    entries are the same. *)
Definition dibit_pairs_distinct : Prop :=
  (forall e k, (e < 12)%nat -> (k < 828)%nat -> enco_which_dibits e k `mod` 2 = 0) /\
  (forall e k e' k', (e < 12)%nat -> (k < 828)%nat -> (e' < 12)%nat -> (k' < 828)%nat ->
     enco_which_dibits e k = enco_which_dibits e' k' -> e = e' /\ k = k').

End Block.

(** ** Stand-ins to run the model on *)

(** The two builds: assertions compiled in, and compiled out. *)
Definition debug_build : build_options := {| NDEBUG := false |}.
Definition release_build : build_options := {| NDEBUG := true |}.

(** A decoder of the kind section 9 of the spec suggests for tests: it
    slices the sample to a dibit and returns the decision made [delay]
    calls earlier. *)
Definition fake_decode (v : list Z) (x : Z) : Z * list Z :=
  match v ++ [x mod 4] with
  | h :: t => (h, t)
  | [] => (x mod 4, [])
  end.

Definition fake_viterbi (delay_of : nat -> nat) : atsc_single_viterbi :=
  {| sample := Z; vstate := list Z;
     viterbi_new := fun e => replicate (delay_of e) 0;
     decode := fake_decode;
     delay := fun v => Z.of_nat (length v) |}.

(** A decoder of delay 1 that keeps the last sample and returns its dibit:
    it returns a dibit from any state. *)
Definition bank_slicer : atsc_single_viterbi :=
  {| sample := Z; vstate := Z;
     viterbi_new := fun _ => 0;
     decode := fun v x => (v `mod` 4, x);
     delay := fun _ => 1 |}.

(** Twelve decoders of delay 1. *)
Definition bank_uniform : atsc_single_viterbi := fake_viterbi (fun _ => 1%nat).

(** A table of the shape the spec describes (every sample but the sync
    symbols and every bit pair of the batch used once); it is not the table
    of atsc_viterbi_mux.h. *)
Definition demo_mux : atsc_viterbi_mux :=
  {| enco_which_syms := fun e k =>
       let t := Z.of_nat k * 12 + Z.of_nat e in 832 * (t `div` 828) + 4 + t `mod` 828;
     enco_which_dibits := fun e k => 2 * (Z.of_nat k * 12 + Z.of_nat e) |}.

(** A tag layout: the segment index above two low bits for the field
    parity and the field-sync flag. *)
Definition demo_types : atsc_types :=
  {| segs_per_field := 312;
     get_tag_value := fun p =>
       segno p * 4 + field p `mod` 2 * 2 + (if field_sync p then 1 else 0);
     from_tag_value := fun v =>
       {| segno := v `div` 4; field := (v `div` 2) `mod` 2; field_sync := Z.odd v |} |}.

(** [n] segments of the constant sample [x] read from stream position 100,
    each tagged with its place in the frame, from segment 290 of field 0. *)
Definition demo_tags (n : nat) : list tag_t :=
  (fun q : nat =>
     {| offset := 100 + Z.of_nat q; key := "plinfo";
        value := 4 * ((290 + Z.of_nat q) `mod` 312)
                 + 2 * ((290 + Z.of_nat q) `div` 312) |}) <$> seq 0 n.

(** The same tags with the one of position 1 missing. *)
Definition demo_tags_gap (n : nat) : list tag_t :=
  filter (fun t => offset t <> 101) (demo_tags n).

Definition demo_io (n : nat) (x : Z) (tags : list tag_t) : @work_io bank_uniform :=
  @Build_work_io bank_uniform (replicate (n * 832) x) tags 100 100.

Definition demo_frame (c : @core bank_uniform) : @frame bank_uniform :=
  @Build_frame bank_uniform c (replicate 2484 0) ∅ [].

(** The same input and frame for the decoders of [bank_slicer]. *)
Definition slicer_io (n : nat) (x : Z) (tags : list tag_t) : @work_io bank_slicer :=
  @Build_work_io bank_slicer (replicate (n * 832) x) tags 100 100.

Definition slicer_frame (c : @core bank_slicer) : @frame bank_slicer :=
  @Build_frame bank_slicer c (replicate 2484 0) ∅ [].

(** The block after a call on twelve segments of the sample 3. *)
Definition used_core : @core bank_uniform :=
  self (@work bank_uniform demo_mux demo_types debug_build
          (demo_io 12 3 (demo_tags 12)) 12
             (demo_frame atsc_viterbi_decoder_impl_new)).2.

(** * Facts about the interleaver fifo *)

Section FifoFacts.

Lemma fifo_reset_wf q : fifo_wf (fifo_reset q).
Proof. split; simpl; [by rewrite length_replicate | by right]. Qed.

Lemma fifo_new_reset size : fifo_new size = fifo_reset (fifo_new size).
Proof. reflexivity. Qed.

Lemma fifo_reset_contents q :
  fifo_contents (fifo_reset q) = replicate (Z.to_nat (m_size q)) fifo_fill.
Proof. unfold fifo_contents; simpl. by rewrite drop_0, app_nil_r. Qed.

Lemma fifo_stuff_size q d : m_size (fifo_stuff q d).2 = m_size q.
Proof. unfold fifo_stuff. by case_decide. Qed.

Lemma fifo_stuff_empty q d :
  fifo_wf q -> m_size q <= 0 ->
  fifo_stuff q d = (d, q) /\ fifo_contents q = [].
Proof.
  intros [Hlen _] Hsz. unfold fifo_stuff, fifo_contents.
  rewrite decide_True by done. split; [done|].
  assert (m_fifo q = []) as ->.
  { apply length_zero_iff_nil. lia. }
  by rewrite drop_nil, take_nil.
Qed.

Lemma fifo_stuff_step q d :
  fifo_wf q -> 0 < m_size q ->
  exists o rest,
    fifo_contents q = o :: rest /\
    (fifo_stuff q d).1 = o /\
    fifo_wf (fifo_stuff q d).2 /\
    fifo_contents (fifo_stuff q d).2 = rest ++ [d].
Proof.
  intros [Hlen Hpos] Hsz. unfold fifo_stuff.
  rewrite decide_False by lia. simpl.
  assert (m_position q < length (m_fifo q))%nat as Hlt by lia.
  destruct (lookup_lt_is_Some_2 _ _ Hlt) as [x Hx].
  rewrite Hx. simpl.
  exists x, (drop (S (m_position q)) (m_fifo q) ++ take (m_position q) (m_fifo q)).
  split.
  { unfold fifo_contents. by rewrite (drop_S _ _ _ Hx). }
  split; [done|].
  rewrite insert_take_drop by done.
  assert (length (take (m_position q) (m_fifo q)) = m_position q) as Htk
    by (rewrite length_take; lia).
  case_decide as Hwrap.
  - split.
    + split; simpl; [|by right].
      rewrite length_app, Htk; simpl. rewrite length_drop. lia.
    + unfold fifo_contents; simpl.
      rewrite drop_0, app_nil_r.
      by rewrite !(drop_ge (m_fifo q)) by lia.
  - split.
    + split; simpl.
      * rewrite length_app, Htk; simpl. rewrite length_drop. lia.
      * left. rewrite length_app, Htk; simpl. rewrite length_drop. lia.
    + unfold fifo_contents; simpl.
      rewrite drop_app_ge by lia. rewrite Htk.
      replace (S (m_position q) - m_position q)%nat with 1%nat by lia.
      simpl. rewrite drop_0.
      rewrite <- app_assoc. f_equal.
      rewrite take_app_ge by lia. rewrite Htk.
      replace (S (m_position q) - m_position q)%nat with 1%nat by lia.
      simpl. by rewrite take_0.
Qed.

Lemma fifo_feed_length q ds : length (fifo_feed q ds).1 = length ds.
Proof.
  revert q. induction ds as [|d ds IH]; intros q; simpl; [done|].
  destruct (fifo_stuff q d) as [o q1].
  specialize (IH q1). destruct (fifo_feed q1 ds) as [os q2].
  simpl in *. by rewrite IH.
Qed.

Lemma fifo_feed_snoc q l d :
  (fifo_feed q (l ++ [d])).2 = (fifo_stuff (fifo_feed q l).2 d).2 /\
  (fifo_feed q (l ++ [d])).1
  = (fifo_feed q l).1 ++ [(fifo_stuff (fifo_feed q l).2 d).1].
Proof.
  revert q. induction l as [|a l IH]; intros q; simpl.
  - by destruct (fifo_stuff q d).
  - destruct (fifo_stuff q a) as [o q1]. specialize (IH q1).
    destruct (fifo_feed q1 (l ++ [d])) as [os q2].
    destruct (fifo_feed q1 l) as [os' q2']. simpl in *.
    destruct IH as [-> ->]. done.
Qed.

(** The queue is a delay line: what comes out is the old contents
    followed by what went in. *)
Lemma fifo_feed_delay_line q ds :
  fifo_wf q ->
  (fifo_feed q ds).1 = take (length ds) (fifo_contents q ++ ds).
Proof.
  revert q. induction ds as [|d ds IH]; intros q Hwf; simpl.
  { by rewrite take_0. }
  destruct (decide (m_size q <= 0)) as [Hsz|Hsz].
  - destruct (fifo_stuff_empty q d Hwf Hsz) as [-> Hc].
    specialize (IH q Hwf). destruct (fifo_feed q ds) as [os q2].
    simpl in *. rewrite IH, Hc. done.
  - destruct (fifo_stuff_step q d Hwf) as (o & rest & Hc & Ho & Hwf1 & Hc1); [lia|].
    destruct (fifo_stuff q d) as [o' q1]. simpl in *. subst o'.
    specialize (IH q1 Hwf1). destruct (fifo_feed q1 ds) as [os q2].
    simpl in *. rewrite IH, Hc1, Hc. simpl. by rewrite <- app_assoc.
Qed.

End FifoFacts.

(** C5 (modelled queue). From its reset state a queue of capacity [C] fed
    [n > C] dibits returns the initial fill value for its first [C]
    outputs and afterwards the inputs in order, each delayed by exactly
    [C] calls: output [i + C] is input [i]. *)
Theorem fifo_stuff_delays_by_capacity (q : fifo_t) (ds : list Z) (C : nat) :
  m_size q = Z.of_nat C ->
  (C < length ds)%nat ->
  let os := (fifo_feed (fifo_reset q) ds).1 in
  length os = length ds /\
  (forall i, (i < C)%nat -> os !! i = Some fifo_fill) /\
  (forall i, (i < length ds - C)%nat -> os !! (i + C)%nat = ds !! i).
Proof.
  intros Hsz Hn os. subst os.
  split; [apply fifo_feed_length|].
  rewrite fifo_feed_delay_line by apply fifo_reset_wf.
  rewrite fifo_reset_contents, Hsz, Nat2Z.id.
  split.
  - intros i Hi. rewrite lookup_take_lt by lia.
    rewrite lookup_app_l by (rewrite length_replicate; lia).
    by apply lookup_replicate_2.
  - intros i Hi. rewrite lookup_take_lt by lia.
    rewrite lookup_app_r by (rewrite length_replicate; lia).
    rewrite length_replicate. f_equal. lia.
Qed.

(** A queue of two slots fed five dibits. *)
Lemma fifo_stuff_delays_by_capacity_witness :
  let os := (fifo_feed (fifo_reset (fifo_new 2)) [1; 2; 3; 1; 0]).1 in
  os = [0; 0; 1; 2; 3] /\
  length os = 5%nat /\
  (forall i, (i < 2)%nat -> os !! i = Some fifo_fill) /\
  (forall i, (i < 5 - 2)%nat -> os !! (i + 2)%nat = [1; 2; 3; 1; 0] !! i).
Proof.
  split; [reflexivity|].
  apply (fifo_stuff_delays_by_capacity (fifo_new 2) [1; 2; 3; 1; 0] 2);
    [reflexivity | simpl; lia].
Defined.

(** Arithmetic over the constants of the headers. *)
Ltac lia_consts :=
  unfold OUTPUT_SIZE, NCODERS, ATSC_DATA_SEGMENT_LENGTH,
         ATSC_MPEG_RS_ENCODED_LENGTH, enco_which_max in *;
  lia.

(** * Facts about the loops *)

Section LoopFacts.

Context {X S : Type}.
Implicit Types (body : X -> S -> option failure * S) (s : S).

Lemma for_each_app xs ys body s :
  for_each (xs ++ ys) body s =
  match for_each xs body s with
  | (None, s') => for_each ys body s'
  | stop => stop
  end.
Proof.
  revert s. induction xs as [|x xs IH]; intros s; simpl; [done|].
  destruct (body x s) as [[e|] s']; [done|]. apply IH.
Qed.

Lemma for_each_stop x xs body s e s' :
  body x s = (Some e, s') -> for_each (x :: xs) body s = (Some e, s').
Proof. intros H. simpl. by rewrite H. Qed.

Lemma for_each_fmap {Y} (g : Y -> X) (ys : list Y) body s :
  for_each (g <$> ys) body s = for_each ys (fun y => body (g y)) s.
Proof.
  revert s. induction ys as [|y ys IH]; intros s; simpl; [done|].
  destruct (body (g y) s) as [[e|] s']; [done|]. apply IH.
Qed.

(** Whatever a loop does, it keeps what each turn keeps. *)
Lemma for_each_preserves (P : S -> Prop) xs body s :
  P s -> (forall x s0, P s0 -> P (body x s0).2) -> P (for_each xs body s).2.
Proof.
  intros Hs Hb. revert s Hs.
  induction xs as [|x xs IH]; intros s Hs; simpl; [done|].
  specialize (Hb x s Hs).
  destruct (body x s) as [[e|] s']; simpl in *; [done|]. by apply IH.
Qed.

End LoopFacts.

(** A counting loop whose turns all succeed runs to its end, and an
    invariant indexed by the counter holds there. *)
Lemma for_each_seq_inv {S} (P : nat -> S -> Prop) a n
    (body : nat -> S -> option failure * S) s :
  P a s ->
  (forall x s0, (a <= x < a + n)%nat -> P x s0 ->
     exists s', body x s0 = (None, s') /\ P (Datatypes.S x) s') ->
  exists s', for_each (seq a n) body s = (None, s') /\ P (a + n)%nat s'.
Proof.
  revert a s. induction n as [|n IH]; intros a s Hs Hb; simpl.
  { exists s. by rewrite Nat.add_0_r. }
  destruct (Hb a s) as (s1 & -> & H1); [lia|done|].
  destruct (IH (Datatypes.S a) s1 H1) as (s2 & -> & H2).
  { intros x s0 Hx. apply Hb. lia. }
  exists s2. split; [done|].
  by replace (a + Datatypes.S n)%nat with (Datatypes.S a + n)%nat by lia.
Qed.

Lemma seq_split_at n k :
  (k < n)%nat -> seq 0 n = seq 0 k ++ k :: seq (Datatypes.S k) (n - Datatypes.S k).
Proof.
  intros Hk. replace n with (k + Datatypes.S (n - Datatypes.S k))%nat at 1 by lia.
  by rewrite seq_app.
Qed.

Lemma mapM_seq_Some {B} (f : nat -> option B) a n :
  (forall k, (a <= k < a + n)%nat -> is_Some (f k)) ->
  exists l, mapM f (seq a n) = Some l /\ length l = n /\
    forall k, (k < n)%nat -> l !! k = f (a + k)%nat.
Proof.
  revert a. induction n as [|n IH]; intros a Hf.
  { exists []. split; [done|]. split; [done|]. intros k Hk. lia. }
  destruct (Hf a) as [y Hy]; [lia|].
  destruct (IH (Datatypes.S a)) as (l & Hl & Hlen & Hlk).
  { intros k Hk. apply Hf. lia. }
  exists (y :: l). split.
  { change (seq a (Datatypes.S n)) with (a :: seq (Datatypes.S a) n).
    cbn. rewrite Hy. cbn. rewrite Hl. done. }
  split; [simpl; lia|].
  intros [|k] Hk; simpl.
  - by rewrite Nat.add_0_r.
  - rewrite Hlk by lia. f_equal. lia.
Qed.

Lemma zlookup_Some {A} (l : list A) z :
  0 <= z < Z.of_nat (length l) -> is_Some (zlookup l z).
Proof.
  intros Hz. unfold zlookup. rewrite decide_True by lia.
  apply lookup_lt_is_Some_2. lia.
Qed.

Lemma zlookup_nat {A} (l : list A) z :
  0 <= z -> zlookup l z = l !! Z.to_nat z.
Proof. intros Hz. unfold zlookup. by rewrite decide_True by lia. Qed.

Lemma memcpy_spec n dst d src s :
  0 <= s -> s + Z.of_nat n <= Z.of_nat (length src) ->
  exists dst', memcpy n dst d src s = Some dst' /\
    forall x, dst' !! x =
      if decide (d <= x < d + Z.of_nat n) then src !! Z.to_nat (s + (x - d))
      else dst !! x.
Proof.
  revert dst d s. induction n as [|n IH]; intros dst d s Hs Hlen; simpl.
  { exists dst. split; [done|]. intros x. rewrite decide_False by lia. done. }
  destruct (zlookup_Some src s) as [b Hb]; [lia|].
  rewrite Hb.
  destruct (IH (<[d:=b]> dst) (d + 1) (s + 1)) as (dst' & -> & Hdst'); [lia|lia|].
  exists dst'. split; [done|]. intros x. rewrite Hdst'.
  destruct (decide (d + 1 <= x < d + 1 + Z.of_nat n)) as [Hin|Hout].
  - rewrite decide_True by lia. f_equal. lia.
  - destruct (decide (x = d)) as [->|Hne].
    + rewrite decide_True by lia. rewrite lookup_insert_eq.
      rewrite zlookup_nat in Hb by lia. rewrite <- Hb. f_equal. lia.
    + rewrite decide_False by lia. by rewrite lookup_insert_ne.
Qed.

(** * Facts about the block *)

Lemma encoders_eq : encoders = seq 0 12.
Proof. reflexivity. Qed.

Lemma slots_eq : slots = seq 0 828.
Proof. reflexivity. Qed.

Lemma out_copy_index_eq j : out_copy_index j = j * 207.
Proof.
  unfold out_copy_index, OUTPUT_SIZE, ATSC_MPEG_RS_ENCODED_LENGTH, NCODERS.
  replace (j * (207 * 12)) with (j * 207 * 12) by lia.
  by rewrite Z.quot_mul.
Qed.

Lemma written_snoc a len x :
  written a (S len) x <->
  written a len x \/
  segment_start (Z.of_nat (a + len)) <= x
    < segment_start (Z.of_nat (a + len)) + ATSC_MPEG_RS_ENCODED_LENGTH.
Proof.
  unfold written. split.
  - intros (q & Hq & Hx). destruct (decide (q = a + len)%nat) as [->|Hne].
    + by right.
    + left. exists q. split; [lia|done].
  - intros [(q & Hq & Hx)|Hx].
    + exists q. split; [lia|done].
    + exists (a + len)%nat. split; [lia|done].
Qed.

Lemma written_app a n m x :
  written a (n + m) x <-> written a n x \/ written (a + n) m x.
Proof.
  unfold written. split.
  - intros (q & Hq & Hx). destruct (decide (q < a + n)%nat).
    + left. exists q. split; [lia|done].
    + right. exists q. split; [lia|done].
  - intros [(q & Hq & Hx)|(q & Hq & Hx)]; exists q; (split; [lia|done]).
Qed.

Lemma written_nil a x : ~ written a 0 x.
Proof. intros (q & Hq & _). lia. Qed.

Lemma written_dec a len x : written a len x \/ ~ written a len x.
Proof.
  induction len as [|len IH].
  - right. apply written_nil.
  - rewrite written_snoc.
    destruct (decide (segment_start (Z.of_nat (a + len)) <= x
                      < segment_start (Z.of_nat (a + len))
                        + ATSC_MPEG_RS_ENCODED_LENGTH)); tauto.
Qed.

Lemma segment_start_eq (b j : nat) :
  (j < 12)%nat ->
  segment_start (Z.of_nat (12 * b + j)) = out_index (Z.of_nat b * NCODERS) (Z.of_nat j).
Proof.
  intros Hj. unfold segment_start, NCODERS.
  replace (Z.of_nat (12 * b + j)) with (Z.of_nat j + Z.of_nat b * 12) by lia.
  rewrite Z.div_add, Z.mod_add by lia.
  rewrite Z.div_small, Z.mod_small by lia.
  f_equal.
Qed.

Lemma segment_start_first (q : nat) :
  (q < 12)%nat -> segment_start (Z.of_nat q) = Z.of_nat q * 207.
Proof.
  intros Hq. pose proof (segment_start_eq 0 q Hq) as He.
  change (12 * 0 + q)%nat with q in He. rewrite He.
  unfold out_index, NCODERS, ATSC_MPEG_RS_ENCODED_LENGTH. lia.
Qed.

Lemma written_first_batch x : written 0 12 x <-> 0 <= x < 2484.
Proof.
  split.
  - intros (q & Hq & Hx).
    rewrite segment_start_first in Hx by lia.
    unfold ATSC_MPEG_RS_ENCODED_LENGTH in Hx. lia.
  - intros Hx. exists (Z.to_nat (x `div` 207)).
    assert (0 <= x `div` 207 < 12) as Hq.
    { split; [apply Z.div_pos; lia | apply Z.div_lt_upper_bound; lia]. }
    split; [lia|].
    rewrite segment_start_first by lia.
    unfold ATSC_MPEG_RS_ENCODED_LENGTH.
    pose proof (Z.div_mod x 207 ltac:(lia)).
    pose proof (Z.mod_pos_bound x 207 ltac:(lia)). lia.
Qed.

Section BlockFacts.

Context {V : atsc_single_viterbi} {M : atsc_viterbi_mux} {T : atsc_types}
        {B : build_options}.

Lemma gather_index_eq i encoder k :
  gather_index i encoder k =
  i * ATSC_DATA_SEGMENT_LENGTH + enco_which_syms encoder k.
Proof.
  unfold gather_index, ATSC_DATA_SEGMENT_LENGTH.
  pose proof (Z.quot_rem' (enco_which_syms encoder k) 832). lia.
Qed.

(** The demultiplexer reads inside its batch and fills twelve rows of 828
    samples. *)
Lemma gather_rows (inp : list sample) i :
  syms_in_range -> 0 <= i ->
  (i + NCODERS) * ATSC_DATA_SEGMENT_LENGTH <= Z.of_nat (length inp) ->
  exists symbols, gather inp i = Some symbols /\ length symbols = 12%nat /\
    forall encoder, (encoder < 12)%nat ->
      exists row, symbols !! encoder = Some row /\ length row = 828%nat /\
        forall k, (k < 828)%nat ->
          row !! k = inp !! Z.to_nat (i * ATSC_DATA_SEGMENT_LENGTH
                                      + enco_which_syms encoder k).
Proof.
  intros Hrange Hi Hlen.
  assert (forall encoder, (encoder < 12)%nat ->
    exists row, mapM (fun k => zlookup inp (gather_index i encoder k)) slots = Some row /\
      length row = 828%nat /\
      forall k, (k < 828)%nat ->
        row !! k = inp !! Z.to_nat (i * ATSC_DATA_SEGMENT_LENGTH
                                    + enco_which_syms encoder k)) as Hrow.
  { intros encoder He. rewrite slots_eq.
    destruct (mapM_seq_Some (fun k => zlookup inp (gather_index i encoder k)) 0 828)
      as (row & Hr & Hlr & Hk).
    { intros k Hk. apply zlookup_Some. rewrite gather_index_eq.
      specialize (Hrange encoder k He ltac:(lia)).
      lia_consts. }
    exists row. split; [done|]. split; [done|].
    intros k Hk'. rewrite (Hk k Hk'). simpl. rewrite gather_index_eq.
    apply zlookup_nat.
    specialize (Hrange encoder k He Hk').
    lia_consts. }
  unfold gather. rewrite encoders_eq.
  destruct (mapM_seq_Some
    (fun encoder => mapM (fun k => zlookup inp (gather_index i encoder k)) slots) 0 12)
    as (symbols & Hs & Hls & Hk).
  { intros encoder He. destruct (Hrow encoder) as (row & -> & _); [lia|]. by eexists. }
  exists symbols. split; [done|]. split; [done|].
  intros encoder He. rewrite (Hk encoder He), Nat.add_0_l. by apply Hrow.
Qed.

Lemma decode_run_length v (row : list sample) :
  length (decode_run v row).1 = length row.
Proof.
  revert v. induction row as [|x row IH]; intros v; simpl; [done|].
  destruct (decode v x) as [d v1]. specialize (IH v1).
  destruct (decode_run v1 row) as [ds v2]. simpl in *. by rewrite IH.
Qed.

Lemma decode_phase (symbols : list (list sample)) (vit : list vstate) :
  length vit = 12%nat -> length symbols = 12%nat ->
  (forall encoder row, symbols !! encoder = Some row -> length row = 828%nat) ->
  exists vit' dibits,
    for_each encoders (decode_encoder symbols) (vit, []) = (None, (vit', dibits)) /\
    length vit' = 12%nat /\ length dibits = 12%nat /\
    (forall encoder row, dibits !! encoder = Some row -> length row = 828%nat).
Proof.
  intros Hv Hs Hrows. rewrite encoders_eq.
  destruct (for_each_seq_inv
    (fun e (st : list vstate * list (list Z)) =>
       length st.1 = 12%nat /\ length st.2 = e /\
       forall encoder row, st.2 !! encoder = Some row -> length row = 828%nat)
    0 12 (decode_encoder symbols) (vit, [])) as ([vit' dibits] & Hrun & Hv' & Hd & Hr).
  { simpl. split; [done|]. split; [done|]. intros e row H. by rewrite lookup_nil in H. }
  { intros e [vt ds] He (Hvt & Hds & Hr). simpl in *.
    destruct (lookup_lt_is_Some_2 vt e) as [v Hve]; [lia|].
    destruct (lookup_lt_is_Some_2 symbols e) as [row Hrow]; [lia|].
    unfold decode_encoder. simpl. rewrite Hve, Hrow.
    pose proof (decode_run_length v row) as Hlen.
    destruct (decode_run v row) as [r v']. simpl in Hlen.
    eexists. split; [done|]. simpl.
    split; [by rewrite length_insert|].
    split; [rewrite length_app; simpl; lia|].
    intros e' row' Hl. apply lookup_app_Some in Hl as [Hl|[_ Hl]].
    - by eapply Hr.
    - apply list_lookup_singleton_Some in Hl as [_ <-].
      rewrite Hlen. by eapply Hrows. }
  exists vit', dibits. done.
Qed.

(** A turn of the packing loop keeps the shape of the fifo bank and of
    [out_copy], whether it succeeds or not. *)
Lemma pack_dibit_keeps dibits encoder k (st : list fifo_t * list Z) :
  m_size <$> (pack_dibit dibits encoder k st).2.1 = m_size <$> st.1 /\
  length (pack_dibit dibits encoder k st).2.2 = length st.2.
Proof.
  unfold pack_dibit.
  destruct (dibits !! encoder ≫= (.!! k)) as [d|]; [|done].
  destruct (st.1 !! encoder) as [q|] eqn:Hq; [|done].
  destruct (zlookup st.2 _) as [old|]; [|done].
  pose proof (fifo_stuff_size q d) as Hsz.
  destruct (fifo_stuff q d) as [r q']. simpl in *.
  split; [|by rewrite length_insert].
  rewrite list_fmap_insert, Hsz.
  apply list_insert_id. by rewrite list_lookup_fmap, Hq.
Qed.

Lemma pack_dibit_ok dibits encoder k (st : list fifo_t * list Z) :
  dibits_in_range -> (encoder < 12)%nat -> (k < 828)%nat ->
  length dibits = 12%nat ->
  (forall e row, dibits !! e = Some row -> length row = 828%nat) ->
  length st.1 = 12%nat -> length st.2 = 2484%nat ->
  (pack_dibit dibits encoder k st).1 = None.
Proof.
  intros Hrange He Hk Hd Hrows Hf Hoc. unfold pack_dibit.
  destruct (lookup_lt_is_Some_2 dibits encoder) as [row Hrow]; [lia|].
  destruct (lookup_lt_is_Some_2 row k) as [d Hdk].
  { rewrite (Hrows _ _ Hrow). lia. }
  rewrite Hrow. simpl. rewrite Hdk.
  destruct (lookup_lt_is_Some_2 st.1 encoder) as [q ->]; [lia|].
  destruct (zlookup_Some st.2 (Z.shiftr (enco_which_dibits encoder k) 3)) as [old ->].
  { specialize (Hrange encoder k He Hk).
    rewrite Z.shiftr_div_pow2 by lia. change (2 ^ 3) with 8.
    unfold OUTPUT_SIZE, ATSC_MPEG_RS_ENCODED_LENGTH in Hrange.
    rewrite Hoc. split.
    - apply Z.div_pos; lia.
    - apply Z.div_lt_upper_bound; lia. }
  by destruct (fifo_stuff q d).
Qed.

Lemma pack_phase dibits (ff : list fifo_t) (oc : list Z) :
  dibits_in_range -> length dibits = 12%nat ->
  (forall e row, dibits !! e = Some row -> length row = 828%nat) ->
  length ff = 12%nat -> length oc = 2484%nat ->
  exists ff' oc',
    for_each encoders (fun encoder => for_each slots (pack_dibit dibits encoder)) (ff, oc)
      = (None, (ff', oc')) /\
    m_size <$> ff' = m_size <$> ff /\ length oc' = 2484%nat.
Proof.
  intros Hrange Hd Hrows Hf Hoc. rewrite encoders_eq, slots_eq.
  set (Q := fun (_ : nat) (st : list fifo_t * list Z) =>
              m_size <$> st.1 = m_size <$> ff /\ length st.2 = 2484%nat).
  assert (forall st, Q 0%nat st -> length st.1 = 12%nat) as HQlen.
  { intros st [Hsz _]. rewrite <- Hf.
    rewrite <- (length_fmap m_size st.1), Hsz. apply length_fmap. }
  destruct (for_each_seq_inv Q 0 12
    (fun encoder => for_each (seq 0 828) (pack_dibit dibits encoder)) (ff, oc))
    as ([ff' oc'] & Hrun & Hsz & Hlen); [done| |by exists ff', oc'].
  intros encoder st He HQ.
  destruct (for_each_seq_inv Q 0 828 (pack_dibit dibits encoder) st)
    as (st' & Hrun & HQ'); [done| |by exists st'].
  intros k st0 Hk HQ0.
  pose proof (pack_dibit_keeps dibits encoder k st0) as [Hk1 Hk2].
  pose proof (pack_dibit_ok dibits encoder k st0 Hrange ltac:(lia) ltac:(lia)
                Hd Hrows (HQlen _ HQ0) (proj2 HQ0)) as Hok.
  destruct (pack_dibit dibits encoder k st0) as [r st1]. simpl in *. subst r.
  exists st1. split; [done|]. destruct HQ0 as [H1 H2].
  split; simpl; congruence.
Qed.

End BlockFacts.

Section BlockRun.

Context {V : atsc_single_viterbi} {M : atsc_viterbi_mux} {T : atsc_types}
        {B : build_options}.

Lemma work_multiple io n f :
  Z.rem n NCODERS = 0 ->
  work io n f =
  match for_each (batch_starts n) (work_batch io) f with
  | (None, f') => (returned n, f')
  | (Some e, f') => (raised e, f')
  end.
Proof.
  intros Hn. unfold work. rewrite decide_False; [done|]. intros [_ Hne]. by apply Hne.
Qed.

(** What every turn of the outer loop keeps, a call keeps, in either
    build and for any number of items. *)
Lemma work_preserves (P : frame -> Prop) io n f :
  P f -> (forall i f0, P f0 -> P (work_batch io i f0).2) -> P (work io n f).2.
Proof.
  intros Hf Hb. unfold work. case_decide; [done|].
  pose proof (for_each_preserves P (batch_starts n) (work_batch io) f Hf Hb) as Hkeep.
  by destruct (for_each (batch_starts n) (work_batch io) f) as [[e|] f'].
Qed.

Lemma emitted_tags_app io a n m :
  emitted_tags io a (n + m) = emitted_tags io a n ++ emitted_tags io (a + n) m.
Proof. unfold emitted_tags. by rewrite seq_app, omap_app. Qed.

Lemma emitted_tags_one io a t :
  out_tag io (Z.of_nat a) = Some t -> emitted_tags io a 1 = [t].
Proof. intros H. unfold emitted_tags. simpl. by rewrite H. Qed.

Lemma copy_segment_ok io (b j : nat) f t :
  (j < 12)%nat -> length (out_copy f) = 2484%nat ->
  first_tag io (Z.of_nat (12 * b + j)) = Some t ->
  exists f', copy_segment io (Z.of_nat b * NCODERS) j f = (None, f') /\
    self f' = self f /\ out_copy f' = out_copy f /\
    out_tags f' = out_tags f ++ emitted_tags io (12 * b + j) 1 /\
    forall x, out f' !! x =
      let start := segment_start (Z.of_nat (12 * b + j)) in
      if decide (start <= x < start + ATSC_MPEG_RS_ENCODED_LENGTH)
      then out_copy f !! Z.to_nat (Z.of_nat j * 207 + (x - start))
      else out f !! x.
Proof.
  intros Hj Hoc Ht. unfold copy_segment.
  replace (Z.of_nat b * NCODERS + Z.of_nat j) with (Z.of_nat (12 * b + j))
    by lia_consts.
  unfold first_tag in Ht.
  destruct (get_tags_in_window _ _ _ _ _) as [|t' rest] eqn:Hw; [done|].
  simpl in Ht. injection Ht as ->.
  destruct (memcpy_spec (Z.to_nat ATSC_MPEG_RS_ENCODED_LENGTH) (out f)
              (out_index (Z.of_nat b * NCODERS) (Z.of_nat j))
              (out_copy f) (out_copy_index (Z.of_nat j))) as (o' & -> & Ho').
  { rewrite out_copy_index_eq. lia. }
  { rewrite out_copy_index_eq, Hoc. lia_consts. }
  eexists. split; [done|]. cbn [self out_copy out out_tags].
  split; [done|]. split; [done|]. split.
  - unfold add_item_tag. f_equal. symmetry. apply emitted_tags_one.
    unfold out_tag, first_tag. rewrite Hw. cbn [head fmap option_fmap option_map].
    do 2 f_equal. lia_consts.
  - intros x. rewrite Ho', segment_start_eq, out_copy_index_eq by done.
    rewrite Z2Nat.id by lia_consts. done.
Qed.

Lemma copy_segment_untagged io (b j : nat) f :
  first_tag io (Z.of_nat (12 * b + j)) = None ->
  copy_segment io (Z.of_nat b * NCODERS) j f
  = (Some (runtime_error "No plinfo on tag"), f).
Proof.
  intros Ht. unfold copy_segment.
  replace (Z.of_nat b * NCODERS + Z.of_nat j) with (Z.of_nat (12 * b + j))
    by lia_consts.
  unfold first_tag in Ht.
  by destruct (get_tags_in_window _ _ _ _ _).
Qed.

Lemma copied_refl io a f : copied io a 0 f f.
Proof.
  split; [by rewrite app_nil_r|].
  split; [|done]. intros x Hx. by apply written_nil in Hx.
Qed.

Lemma copied_trans io a n m f1 f2 f3 :
  copied io a n f1 f2 -> copied io (a + n) m f2 f3 -> copied io a (n + m) f1 f3.
Proof.
  intros (Ht1 & Hw1 & Hn1) (Ht2 & Hw2 & Hn2). split; [|split].
  - by rewrite Ht2, Ht1, emitted_tags_app, app_assoc.
  - intros x Hx. apply written_app in Hx.
    destruct (written_dec (a + n) m x) as [Hin|Hout].
    + by apply Hw2.
    + rewrite Hn2 by done. destruct Hx; [by apply Hw1|done].
  - intros x Hx. rewrite written_app in Hx.
    rewrite Hn2, Hn1; [done|tauto|tauto].
Qed.

Lemma copy_loop io (b m : nat) f :
  length (out_copy f) = 2484%nat -> (m <= 12)%nat ->
  (forall j, (j < m)%nat -> is_Some (first_tag io (Z.of_nat (12 * b + j)))) ->
  ((m < 12)%nat -> first_tag io (Z.of_nat (12 * b + m)) = None) ->
  exists f',
    for_each encoders (copy_segment io (Z.of_nat b * NCODERS)) f
      = (tag_outcome m 12, f') /\
    self f' = self f /\ out_copy f' = out_copy f /\
    copied io (12 * b) m f f'.
Proof.
  intros Hoc Hm Htag Hstop.
  destruct (for_each_seq_inv
    (fun j f' => self f' = self f /\ out_copy f' = out_copy f /\
                 copied io (12 * b) j f f')
    0 m (copy_segment io (Z.of_nat b * NCODERS)) f)
    as (f1 & Hrun & Hself & Hcopy & Hcopied).
  { split; [done|]. split; [done|]. apply copied_refl. }
  { intros j f0 Hj (Hs0 & Hc0 & Hcp0).
    destruct (Htag j) as [t Ht]; [lia|].
    destruct (copy_segment_ok io b j f0 t) as (f' & -> & Hs' & Hc' & Ht' & Ho');
      [lia|congruence|done|].
    exists f'. split; [done|]. split; [congruence|]. split; [congruence|].
    replace (S j) with (j + 1)%nat by lia.
    apply (copied_trans io (12 * b) j 1 f f0 f'); [done|].
    split; [done|]. split.
    - intros x Hx. apply written_snoc in Hx as [Hx|Hx]; [by apply written_nil in Hx|].
      rewrite Nat.add_0_r in Hx. rewrite Ho'. cbn zeta. rewrite decide_True by done.
      apply lookup_lt_is_Some_2. rewrite Hc0, Hoc.
      unfold ATSC_MPEG_RS_ENCODED_LENGTH in Hx. lia.
    - intros x Hx. rewrite Ho'. cbn zeta. rewrite decide_False; [done|].
      intros Hin. apply Hx. apply written_snoc. right. by rewrite Nat.add_0_r. }
  rewrite encoders_eq. simpl in Hrun, Hcopied.
  unfold tag_outcome. destruct (decide (m = 12%nat)) as [->|Hne].
  { exists f1. done. }
  rewrite (seq_split_at 12 m) by lia.
  rewrite for_each_app, Hrun. simpl.
  rewrite copy_segment_untagged by (apply Hstop; lia).
  exists f1. done.
Qed.

(** One turn of the outer loop on the batch [b], whose first [m] positions
    carry a tag. *)
Lemma work_batch_run io (b m : nat) f :
  syms_in_range -> dibits_in_range -> wf_frame f ->
  Z.of_nat (12 * (b + 1)) * ATSC_DATA_SEGMENT_LENGTH <= Z.of_nat (length (in_ io)) ->
  (m <= 12)%nat ->
  (forall j, (j < m)%nat -> is_Some (first_tag io (Z.of_nat (12 * b + j)))) ->
  ((m < 12)%nat -> first_tag io (Z.of_nat (12 * b + m)) = None) ->
  exists f',
    work_batch io (Z.of_nat b * NCODERS) f = (tag_outcome m 12, f') /\
    wf_frame f' /\ copied io (12 * b) m f f'.
Proof.
  intros Hsyms Hdibits [[Hv Hf] Hoc] Hin Hm Htag Hstop.
  change (Z.to_nat NCODERS) with 12%nat in *.
  change (Z.to_nat OUTPUT_SIZE) with 2484%nat in *.
  unfold work_batch.
  destruct (gather_rows (in_ io) (Z.of_nat b * NCODERS) Hsyms)
    as (symbols & -> & Hls & Hrows); [lia_consts|lia_consts|].
  destruct (decode_phase symbols (viterbi (self f)) Hv Hls)
    as (vit & dibits & -> & Hvit & Hld & Hdrows).
  { intros encoder row Hrow.
    destruct (Hrows encoder) as (row' & Hrow' & Hlen & _).
    { apply lookup_lt_Some in Hrow. lia. }
    congruence. }
  destruct (pack_phase dibits (fifo (self f)) (out_copy f) Hdibits Hld Hdrows Hf Hoc)
    as (ff & oc & -> & Hsz & Hloc).
  destruct (copy_loop io b m
              {| self := {| viterbi := vit; fifo := ff |}; out_copy := oc;
                 out := out f; out_tags := out_tags f |} Hloc Hm Htag Hstop)
    as (f' & -> & Hself & Hcopy & Hcopied).
  exists f'. split; [done|]. split.
  - split; [split|].
    + by rewrite Hself.
    + rewrite Hself. simpl.
      rewrite <- (length_fmap m_size ff), Hsz, length_fmap. done.
    + by rewrite Hcopy.
  - done.
Qed.

Lemma batches_complete io (nb : nat) f :
  syms_in_range -> dibits_in_range -> wf_frame f ->
  Z.of_nat (12 * nb) * ATSC_DATA_SEGMENT_LENGTH <= Z.of_nat (length (in_ io)) ->
  (forall q, (q < 12 * nb)%nat -> is_Some (first_tag io (Z.of_nat q))) ->
  exists f',
    for_each (seq 0 nb) (fun b => work_batch io (Z.of_nat b * NCODERS)) f = (None, f') /\
    wf_frame f' /\ copied io 0 (12 * nb) f f'.
Proof.
  intros Hsyms Hdibits Hwf Hin Htag.
  destruct (for_each_seq_inv
    (fun b f' => wf_frame f' /\ copied io 0 (12 * b) f f')
    0 nb (fun b => work_batch io (Z.of_nat b * NCODERS)) f) as (f' & Hrun & Hwf' & Hc).
  { split; [done|]. apply copied_refl. }
  { intros b f0 Hb [Hwf0 Hc0].
    destruct (work_batch_run io b 12 f0 Hsyms Hdibits Hwf0) as (f' & Hrun & Hwf' & Hc');
      [lia_consts|lia| |lia|].
    { intros j Hj. apply Htag. lia. }
    exists f'. split; [done|]. split; [done|].
    replace (12 * S b)%nat with (12 * b + 12)%nat by lia.
    by eapply copied_trans. }
  exists f'. done.
Qed.

Lemma batch_starts_eq (nb : nat) :
  batch_starts (Z.of_nat (12 * nb)) = (fun b : nat => Z.of_nat b * NCODERS) <$> seq 0 nb.
Proof.
  unfold batch_starts. do 2 f_equal. unfold NCODERS.
  replace (Z.of_nat (12 * nb) + (12 - 1)) with (11 + Z.of_nat nb * 12) by lia.
  rewrite Z.div_add by lia. rewrite Z.div_small by lia. lia.
Qed.

(** [work] on [12 * nb] segments of which the first [p] carry a tag: it
    copies out these [p] positions, and raises at position [p] unless all
    were tagged. *)
Lemma work_run io (nb p : nat) f :
  syms_in_range -> dibits_in_range -> wf_frame f ->
  Z.of_nat (12 * nb) * ATSC_DATA_SEGMENT_LENGTH <= Z.of_nat (length (in_ io)) ->
  (p <= 12 * nb)%nat ->
  (forall q, (q < p)%nat -> is_Some (first_tag io (Z.of_nat q))) ->
  ((p < 12 * nb)%nat -> first_tag io (Z.of_nat p) = None) ->
  exists f',
    work io (Z.of_nat (12 * nb)) f
      = (match tag_outcome p (12 * nb) with
         | None => returned (Z.of_nat (12 * nb))
         | Some e => raised e
         end, f') /\
    wf_frame f' /\ copied io 0 p f f'.
Proof.
  intros Hsyms Hdibits Hwf Hin Hp Htag Hstop.
  rewrite work_multiple.
  2:{ unfold NCODERS. replace (Z.of_nat (12 * nb)) with (Z.of_nat nb * 12) by lia.
      apply Z.rem_mul. lia. }
  rewrite batch_starts_eq, for_each_fmap.
  unfold tag_outcome. destruct (decide (p = (12 * nb)%nat)) as [->|Hne].
  { destruct (batches_complete io nb f Hsyms Hdibits Hwf Hin Htag) as (f' & -> & Hwf' & Hc).
    exists f'. done. }
  set (bf := (p / 12)%nat). set (m := (p mod 12)%nat).
  assert (p = 12 * bf + m)%nat as Hpe by apply Nat.div_mod_eq.
  assert (m < 12)%nat as Hm by (apply Nat.mod_upper_bound; lia).
  assert (bf < nb)%nat as Hbf by lia.
  destruct (batches_complete io bf f Hsyms Hdibits Hwf) as (f1 & Hrun1 & Hwf1 & Hc1).
  { lia_consts. }
  { intros q Hq. apply Htag. lia. }
  destruct (work_batch_run io bf m f1 Hsyms Hdibits Hwf1) as (f2 & Hrun2 & Hwf2 & Hc2).
  { lia_consts. }
  { lia. }
  { intros j Hj. apply Htag. lia. }
  { intros _. rewrite <- Hpe. apply Hstop. lia. }
  unfold tag_outcome in Hrun2. rewrite decide_False in Hrun2 by lia.
  rewrite (seq_split_at nb bf) by lia.
  rewrite for_each_app, Hrun1. simpl.
  rewrite Hrun2.
  exists f2. split; [done|]. split; [done|].
  rewrite Hpe. by eapply copied_trans.
Qed.

(** Whatever [work] does, the block keeps its shape and every fifo its
    capacity. *)
Lemma work_batch_keeps io i c f :
  same_shape c (self f) -> same_shape c (self (work_batch io i f).2).
Proof.
  intros [Hv Hf]. unfold work_batch.
  destruct (gather (in_ io) i) as [symbols|]; [|done].
  pose proof (for_each_preserves
    (fun st : list vstate * list (list Z) => length st.1 = length (viterbi c))
    encoders (decode_encoder symbols) (viterbi (self f), []) Hv) as Hdec.
  destruct (for_each encoders (decode_encoder symbols) (viterbi (self f), []))
    as [r [vit dibits]].
  assert (length vit = length (viterbi c)) as Hvit.
  { apply Hdec. intros e st Hst. unfold decode_encoder.
    destruct (st.1 !! e); [|done]. destruct (symbols !! e); [|done].
    destruct (decode_run _ _). simpl. by rewrite length_insert. }
  destruct r as [e|]; [done|].
  pose proof (for_each_preserves
    (fun st : list fifo_t * list Z => m_size <$> st.1 = m_size <$> fifo c)
    encoders (fun encoder => for_each slots (pack_dibit dibits encoder))
    (fifo (self f), out_copy f) Hf) as Hpack.
  destruct (for_each encoders _ (fifo (self f), out_copy f)) as [r [ff oc]].
  assert (m_size <$> ff = m_size <$> fifo c) as Hff.
  { apply Hpack. intros e st Hst.
    apply (for_each_preserves
      (fun st : list fifo_t * list Z => m_size <$> st.1 = m_size <$> fifo c)); [done|].
    intros k st0 Hst0. destruct (pack_dibit_keeps dibits e k st0) as [-> _]. done. }
  destruct r as [e|]; [done|].
  apply (for_each_preserves (fun f' : frame => same_shape c (self f'))); [done|].
  intros j f0 Hf0. unfold copy_segment.
  destruct (get_tags_in_window _ _ _ _ _); [done|].
  by destruct (memcpy _ _ _ _ _).
Qed.

Lemma work_keeps io n f : same_shape (self f) (self (work io n f).2).
Proof.
  apply (work_preserves (fun f' : frame => same_shape (self f) (self f'))); [done|].
  intros i f0. apply work_batch_keeps.
Qed.

End BlockRun.

(** * Facts about the lifetime of the block *)

Lemma foldl_alter_seq_lookup {A} (g : A -> A) (l : list A) a n j :
  foldl (fun fs i => alter g i fs) l (seq a n) !! j =
  if decide (a <= j < a + n)%nat then g <$> l !! j else l !! j.
Proof.
  revert a l. induction n as [|n IH]; intros a l; simpl.
  { by rewrite decide_False by lia. }
  rewrite IH. destruct (decide (S a <= j < S a + n)%nat).
  - rewrite decide_True by lia. by rewrite list_lookup_alter_ne by lia.
  - destruct (decide (j = a)) as [->|Hne].
    + rewrite decide_True by lia. apply list_lookup_alter_eq.
    + rewrite decide_False by lia. by rewrite list_lookup_alter_ne by lia.
Qed.

Section Lifetime.

Context {V : atsc_single_viterbi} {M : atsc_viterbi_mux} {T : atsc_types}
        {B : build_options}.

Lemma new_fifo :
  fifo atsc_viterbi_decoder_impl_new = replicate 12 (fifo_new fifo_size).
Proof. reflexivity. Qed.

Lemma new_viterbi :
  viterbi atsc_viterbi_decoder_impl_new = viterbi_new <$> seq 0 12.
Proof. reflexivity. Qed.

Lemma reset_viterbi c : viterbi (reset c) = viterbi c.
Proof. reflexivity. Qed.

Lemma reset_fifo_lookup c j :
  fifo (reset c) !! j =
  if decide (j < 12)%nat then fifo_reset <$> fifo c !! j else fifo c !! j.
Proof.
  unfold reset. cbn [fifo]. rewrite encoders_eq, foldl_alter_seq_lookup.
  destruct (decide (j < 12)%nat).
  - by rewrite decide_True by lia.
  - by rewrite decide_False by lia.
Qed.

Lemma reset_sizes c : m_size <$> fifo (reset c) = m_size <$> fifo c.
Proof.
  apply list_eq. intros j. rewrite !list_lookup_fmap, reset_fifo_lookup.
  case_decide; [|done]. by destruct (fifo c !! j).
Qed.

(** Over its lifetime the block has twelve decoders and twelve fifos of
    the size chosen in the constructor. *)
Lemma reachable_shape c :
  reachable c ->
  length (viterbi c) = 12%nat /\ m_size <$> fifo c = replicate 12 fifo_size.
Proof.
  induction 1 as [|c Hc [IHv IHf]|c io n oc o ts Hc [IHv IHf]].
  - split; [reflexivity|]. rewrite new_fifo. reflexivity.
  - split; [done|]. by rewrite reset_sizes.
  - destruct (work_keeps io n {| self := c; out_copy := oc; out := o; out_tags := ts |})
      as [Hv Hf].
    cbn [self] in Hv, Hf. split; congruence.
Qed.

Lemma reachable_fifo_lookup c j q :
  reachable c -> fifo c !! j = Some q -> (j < 12)%nat /\ m_size q = fifo_size.
Proof.
  intros Hc Hq. destruct (reachable_shape c Hc) as [_ Hsz].
  assert ((m_size <$> fifo c) !! j = Some (m_size q)) as Hj
    by (by rewrite list_lookup_fmap, Hq).
  rewrite Hsz in Hj. apply lookup_replicate in Hj as [Hj ?]. done.
Qed.

Lemma reachable_fifo_length c : reachable c -> length (fifo c) = 12%nat.
Proof.
  intros Hc. destruct (reachable_shape c Hc) as [_ Hsz].
  rewrite <- (length_fmap m_size), Hsz. apply length_replicate.
Qed.

Lemma reachable_reset_fifo c :
  reachable c -> fifo (reset c) = fifo atsc_viterbi_decoder_impl_new.
Proof.
  intros Hc. rewrite new_fifo. apply list_eq. intros j.
  rewrite reset_fifo_lookup.
  destruct (decide (j < 12)%nat) as [Hj|Hj].
  - rewrite lookup_replicate_2 by done.
    destruct (lookup_lt_is_Some_2 (fifo c) j) as [q Hq].
    { by rewrite reachable_fifo_length. }
    rewrite Hq. simpl. f_equal.
    destruct (reachable_fifo_lookup c j q Hc Hq) as [_ Hsz].
    unfold fifo_reset, fifo_new. by rewrite Hsz.
  - rewrite (proj1 (lookup_replicate_None 12 (fifo_new fifo_size) j)) by lia.
    apply lookup_ge_None_2. rewrite reachable_fifo_length by done. lia.
Qed.

(** The decoders after one turn of the outer loop are those the decoding
    loop leaves. *)
Lemma work_batch_viterbi io i f symbols vit dibits :
  gather (in_ io) i = Some symbols ->
  for_each encoders (decode_encoder symbols) (viterbi (self f), [])
    = (None, (vit, dibits)) ->
  viterbi (self (work_batch io i f).2) = vit.
Proof.
  intros Hg Hd. unfold work_batch. rewrite Hg, Hd.
  destruct (for_each encoders _ (fifo (self f), out_copy f)) as [[e|] [ff oc]]; [done|].
  apply (for_each_preserves (fun f' : frame => viterbi (self f') = vit)); [done|].
  intros j f0 Hf0. unfold copy_segment.
  destruct (get_tags_in_window _ _ _ _ _); [done|].
  by destruct (memcpy _ _ _ _ _).
Qed.

Lemma decode_run_delay v (row : list sample) :
  one_delay -> delay (decode_run v row).2 = delay v.
Proof.
  intros [_ Hkeep]. revert v. induction row as [|x row IH]; intros v; [done|].
  simpl. specialize (Hkeep v x). destruct (decode v x) as [d v1].
  specialize (IH v1). destruct (decode_run v1 row) as [ds v2].
  simpl in *. congruence.
Qed.

Lemma work_batch_delays io i f D :
  one_delay ->
  Forall (fun v => delay v = D) (viterbi (self f)) ->
  Forall (fun v => delay v = D) (viterbi (self (work_batch io i f).2)).
Proof.
  intros Hone Hf. unfold work_batch.
  destruct (gather (in_ io) i) as [symbols|]; [|done].
  pose proof (for_each_preserves
    (fun st : list vstate * list (list Z) => Forall (fun v => delay v = D) st.1)
    encoders (decode_encoder symbols) (viterbi (self f), []) Hf) as Hdec.
  destruct (for_each encoders (decode_encoder symbols) _) as [r [vit dibits]].
  assert (Forall (fun v => delay v = D) vit) as Hvit.
  { apply Hdec. intros e st Hst. unfold decode_encoder.
    destruct (st.1 !! e) as [v|] eqn:Hv; [|done].
    destruct (symbols !! e) as [row|]; [|done].
    pose proof (decode_run_delay v row Hone) as Hrow.
    destruct (decode_run v row) as [ds v']. simpl in *.
    apply Forall_insert; [done|].
    rewrite Hrow. exact (Forall_lookup_1 _ _ _ _ Hst Hv). }
  destruct r as [e|]; [done|].
  destruct (for_each encoders _ (fifo (self f), out_copy f)) as [[e|] [ff oc]]; [done|].
  apply (for_each_preserves
    (fun f' : frame => Forall (fun v => delay v = D) (viterbi (self f')))); [done|].
  intros j f0 Hf0. unfold copy_segment.
  destruct (get_tags_in_window _ _ _ _ _); [done|].
  by destruct (memcpy _ _ _ _ _).
Qed.

(** Over the lifetime of the block every decoder has the delay the
    constructor read from decoder 0. *)
Lemma reachable_delays c :
  one_delay -> reachable c ->
  Forall (fun v => delay v = delay (viterbi_new 0%nat)) (viterbi c).
Proof.
  intros Hone. induction 1 as [|c Hc IH|c io n oc o ts Hc IH].
  - rewrite new_viterbi. apply Forall_fmap, Forall_forall. intros i _.
    apply (proj1 Hone).
  - by rewrite reset_viterbi.
  - apply (work_preserves
      (fun f' : frame =>
         Forall (fun v => delay v = delay (viterbi_new 0%nat)) (viterbi (self f'))));
      [done|].
    intros i f0. by apply work_batch_delays.
Qed.

End Lifetime.

(** * Facts about the stand-ins *)

Lemma demo_syms_in_range : @syms_in_range demo_mux.
Proof.
  intros e k He Hk. unfold NCODERS, ATSC_DATA_SEGMENT_LENGTH.
  cbn [enco_which_syms demo_mux].
  assert (0 <= Z.of_nat k * 12 + Z.of_nat e < 9936) as Ht by lia.
  revert Ht. generalize (Z.of_nat k * 12 + Z.of_nat e). intros t Ht.
  pose proof (Z.div_mod t 828 ltac:(lia)).
  pose proof (Z.mod_pos_bound t 828 ltac:(lia)).
  cbn zeta. lia.
Qed.

Lemma demo_dibits_in_range : @dibits_in_range demo_mux.
Proof.
  intros e k He Hk. unfold OUTPUT_SIZE, ATSC_MPEG_RS_ENCODED_LENGTH.
  cbn [enco_which_dibits demo_mux]. lia.
Qed.

Lemma uniform_one_delay : @one_delay bank_uniform.
Proof.
  split; [done|]. intros v x. cbn [decode delay bank_uniform fake_viterbi].
  unfold fake_decode. destruct v as [|h t]; simpl; [done|].
  rewrite length_app. simpl. lia.
Qed.

Lemma demo_frame_wf : wf_frame (demo_frame atsc_viterbi_decoder_impl_new).
Proof. repeat split. Qed.

Lemma demo_io_length n x tags :
  Z.of_nat (length (in_ (demo_io n x tags))) = Z.of_nat n * 832.
Proof. unfold demo_io. cbn [in_]. rewrite length_replicate. lia. Qed.

Lemma lt_by_cases (P : nat -> Prop) n :
  Forall P (seq 0 n) -> forall q, (q < n)%nat -> P q.
Proof. intros H q Hq. rewrite Forall_seq in H. apply H. lia. Qed.

Lemma demo_tagged_12 x q :
  (q < 12)%nat -> is_Some (first_tag (demo_io 12 x (demo_tags 12)) (Z.of_nat q)).
Proof.
  revert q. apply lt_by_cases. repeat (constructor; [by eexists|]). constructor.
Qed.

Lemma demo_tagged_24 x q :
  (q < 24)%nat -> is_Some (first_tag (demo_io 24 x (demo_tags 24)) (Z.of_nat q)).
Proof.
  revert q. apply lt_by_cases. repeat (constructor; [by eexists|]). constructor.
Qed.

(** * Properties of the constructor, [reset] and [work] *)

Section Properties.

Context {V : atsc_single_viterbi} {M : atsc_viterbi_mux} {T : atsc_types}
        {B : build_options}.

Lemma core_eq (c1 c2 : core) :
  viterbi c1 = viterbi c2 -> fifo c1 = fifo c2 -> c1 = c2.
Proof. destruct c1, c2. simpl. congruence. Qed.

Lemma first_tag_at io q t :
  first_tag io q = Some t -> offset t = nitems_read io + q /\ key t = tag_pmt.
Proof.
  intros Ht. apply head_Some_elem_of in Ht.
  unfold get_tags_in_window in Ht.
  apply list_elem_of_filter in Ht as [[Hoff Hkey] _]. split; [lia|done].
Qed.

Lemma emitted_tags_all io a n :
  (forall q, (a <= q < a + n)%nat -> is_Some (first_tag io (Z.of_nat q))) ->
  length (emitted_tags io a n) = n /\
  forall k, (k < n)%nat -> emitted_tags io a n !! k = out_tag io (Z.of_nat (a + k)).
Proof.
  revert a. induction n as [|n IH]; intros a Htag.
  { split; [done|]. intros k Hk. lia. }
  destruct (Htag a) as [t Ht]; [lia|].
  destruct (IH (S a)) as [Hlen Hlk].
  { intros q Hq. apply Htag. lia. }
  change (emitted_tags io a (S n)) with (emitted_tags io a (1 + n)).
  rewrite emitted_tags_app.
  assert (out_tag io (Z.of_nat a) = Some
            {| offset := nitems_written io + Z.of_nat a; key := tag_pmt;
               value := get_tag_value
                          (plinfo_delay (from_tag_value (value t)) NCODERS) |}) as Hout.
  { unfold out_tag. by rewrite Ht. }
  rewrite (emitted_tags_one io a _ Hout).
  replace (a + 1)%nat with (S a) by lia.
  split; [simpl; lia|].
  intros [|k] Hk; simpl.
  - by rewrite Nat.add_0_r.
  - rewrite Hlk by lia. do 2 f_equal. lia.
Qed.

(** C1 (defect of the code). On a call with 24 segments, all tagged, the
    twelve segments of the second batch are not stored at output
    positions 12..23, which the call leaves as they were: they are stored
    at positions 144..155, past the 24 segments the call is to produce. *)
Theorem work_misplaces_second_batch io f :
  syms_in_range -> dibits_in_range -> wf_frame f ->
  24 * ATSC_DATA_SEGMENT_LENGTH <= Z.of_nat (length (in_ io)) ->
  (forall q, (q < 24)%nat -> is_Some (first_tag io (Z.of_nat q))) ->
  (work io 24 f).1 = returned 24 /\
  (forall x, 0 <= x < 12 * ATSC_MPEG_RS_ENCODED_LENGTH ->
     is_Some (out (work io 24 f).2 !! x)) /\
  (forall x, 12 * ATSC_MPEG_RS_ENCODED_LENGTH <= x < 24 * ATSC_MPEG_RS_ENCODED_LENGTH ->
     out (work io 24 f).2 !! x = out f !! x) /\
  (forall x, 144 * ATSC_MPEG_RS_ENCODED_LENGTH <= x < 156 * ATSC_MPEG_RS_ENCODED_LENGTH ->
     is_Some (out (work io 24 f).2 !! x)).
Proof.
  intros Hsyms Hdibits Hwf Hin Htag.
  destruct (work_run io 2 24 f Hsyms Hdibits Hwf) as (f' & Hrun & _ & _ & Hw & Hn);
    [done|lia|done|lia|].
  change (Z.of_nat (12 * 2)) with 24 in Hrun. rewrite Hrun. cbn [fst snd].
  split; [done|].
  unfold ATSC_MPEG_RS_ENCODED_LENGTH. split; [|split].
  - intros x Hx. apply Hw. exists (Z.to_nat (x `div` 207)).
    assert (0 <= x `div` 207 < 12) as Hq.
    { split; [apply Z.div_pos; lia | apply Z.div_lt_upper_bound; lia]. }
    split; [lia|].
    rewrite Z2Nat.id by lia.
    unfold segment_start, out_index, NCODERS, ATSC_MPEG_RS_ENCODED_LENGTH.
    rewrite (Z.div_small (x `div` 207)), (Z.mod_small (x `div` 207)) by lia.
    pose proof (Z.div_mod x 207 ltac:(lia)).
    pose proof (Z.mod_pos_bound x 207 ltac:(lia)). lia.
  - intros x Hx. apply Hn. intros (q & Hq & Hin').
    unfold segment_start, out_index, NCODERS, ATSC_MPEG_RS_ENCODED_LENGTH in Hin'.
    pose proof (Z.div_mod (Z.of_nat q) 12 ltac:(lia)).
    pose proof (Z.mod_pos_bound (Z.of_nat q) 12 ltac:(lia)).
    assert (0 <= Z.of_nat q `div` 12) by (apply Z.div_pos; lia).
    lia.
  - intros x Hx. apply Hw. exists (Z.to_nat (x `div` 207 - 132)).
    assert (144 <= x `div` 207 < 156) as Hq.
    { split; [apply Z.div_le_lower_bound; lia | apply Z.div_lt_upper_bound; lia]. }
    split; [lia|].
    rewrite Z2Nat.id by lia.
    unfold segment_start, out_index, NCODERS, ATSC_MPEG_RS_ENCODED_LENGTH.
    replace (x `div` 207 - 132) with ((x `div` 207 - 144) + 1 * 12) by lia.
    rewrite Z.div_add, Z.mod_add by lia.
    rewrite (Z.div_small (x `div` 207 - 144)), (Z.mod_small (x `div` 207 - 144)) by lia.
    pose proof (Z.div_mod x 207 ltac:(lia)).
    pose proof (Z.mod_pos_bound x 207 ltac:(lia)). lia.
Qed.


(** C6 (modelled plinfo). On a call whose positions are all tagged, the
    tag attached for relative position [q] sits at the stream position of
    the input tag it is made from and carries the plinfo of that tag
    delayed by twelve segments: the segment index advanced by 12 modulo
    the segments per field, the field index advanced by the wraparound. *)
Theorem output_tag_is_input_tag_delayed io (nb q : nat) f t :
  syms_in_range -> dibits_in_range -> wf_frame f ->
  Z.of_nat (12 * nb) * ATSC_DATA_SEGMENT_LENGTH <= Z.of_nat (length (in_ io)) ->
  (forall q', (q' < 12 * nb)%nat -> is_Some (first_tag io (Z.of_nat q'))) ->
  nitems_read io = nitems_written io ->
  (q < 12 * nb)%nat ->
  first_tag io (Z.of_nat q) = Some t ->
  let r := work io (Z.of_nat (12 * nb)) f in
  let pli_in := from_tag_value (value t) in
  exists added pli_out,
    r.1 = returned (Z.of_nat (12 * nb)) /\
    out_tags r.2 = out_tags f ++ added /\
    length added = (12 * nb)%nat /\
    added !! q = Some {| offset := offset t; key := key t;
                         value := get_tag_value pli_out |} /\
    offset t = nitems_written io + Z.of_nat q /\
    pli_out = plinfo_delay pli_in NCODERS /\
    segno pli_out = (segno pli_in + 12) `mod` segs_per_field /\
    field pli_out = field pli_in + (segno pli_in + 12) `div` segs_per_field /\
    field_sync pli_out = field_sync pli_in.
Proof.
  intros Hsyms Hdibits Hwf Hin Htag Hsync Hq Ht r pli_in. subst r pli_in.
  destruct (work_run io nb (12 * nb) f Hsyms Hdibits Hwf Hin)
    as (f' & Hrun & _ & Htags & _); [lia|done|lia|].
  unfold tag_outcome in Hrun. rewrite decide_True in Hrun by done.
  rewrite Hrun. cbn [fst snd].
  destruct (emitted_tags_all io 0 (12 * nb)) as [Hlen Hlk].
  { intros q' Hq'. apply Htag. lia. }
  destruct (first_tag_at io _ t Ht) as [Hoff Hkey].
  exists (emitted_tags io 0 (12 * nb)),
         (plinfo_delay (from_tag_value (value t)) NCODERS).
  split; [done|]. split; [done|]. split; [done|]. split.
  { rewrite Hlk by done. unfold out_tag. simpl. rewrite Ht. simpl.
    do 2 f_equal; [rewrite Hoff; lia | done]. }
  split; [lia|]. done.
Qed.

(** C8. For a batch of twelve segments at offset [i] the demultiplexer
    succeeds, and entry [k] of row [encoder] is the sample of the batch at
    the offset the table gives, provided the table stays inside a batch:
    the index it reads lies inside the batch. *)
Theorem gather_demultiplexes (inp : list sample) (i : Z) :
  syms_in_range -> 0 <= i ->
  (i + NCODERS) * ATSC_DATA_SEGMENT_LENGTH <= Z.of_nat (length inp) ->
  let batch_input :=
    take (Z.to_nat (NCODERS * ATSC_DATA_SEGMENT_LENGTH))
         (drop (Z.to_nat (i * ATSC_DATA_SEGMENT_LENGTH)) inp) in
  exists symbols,
    gather inp i = Some symbols /\ length symbols = 12%nat /\
    forall encoder k, (encoder < 12)%nat -> (k < 828)%nat ->
      i * ATSC_DATA_SEGMENT_LENGTH <= gather_index i encoder k
        < (i + NCODERS) * ATSC_DATA_SEGMENT_LENGTH /\
      exists x, symbols !! encoder ≫= (.!! k) = Some x /\
                batch_input !! Z.to_nat (enco_which_syms encoder k) = Some x.
Proof.
  intros Hsyms Hi Hlen batch_input.
  destruct (gather_rows inp i Hsyms Hi Hlen) as (symbols & Hg & Hls & Hrows).
  exists symbols. split; [done|]. split; [done|].
  intros encoder k He Hk.
  specialize (Hsyms encoder k He Hk).
  split.
  { rewrite gather_index_eq. lia_consts. }
  destruct (Hrows encoder He) as (row & Hrow & Hlrow & Hlk).
  destruct (lookup_lt_is_Some_2 row k) as [x Hx]; [lia|].
  exists x. rewrite Hrow. simpl. split; [done|].
  subst batch_input. unfold NCODERS, ATSC_DATA_SEGMENT_LENGTH in *.
  rewrite lookup_take_lt by lia. rewrite lookup_drop.
  rewrite <- Hx, Hlk by done. f_equal. lia.
Qed.

Lemma batch_starts_round_up n :
  batch_starts n = batch_starts (12 * ((n + 11) `div` 12)).
Proof.
  unfold batch_starts, NCODERS. do 2 f_equal.
  replace (n + (12 - 1)) with (n + 11) by lia.
  replace (12 * ((n + 11) `div` 12) + (12 - 1))
    with (11 + (n + 11) `div` 12 * 12) by lia.
  rewrite Z.div_add by lia. rewrite (Z.div_small 11 12) by lia. lia.
Qed.

(** With NDEBUG nothing stops a call: the loop runs for every batch start
    below the number of items, which are the batch starts of the next
    multiple of twelve. *)
Lemma work_ndebug io n f :
  NDEBUG = true ->
  work io n f =
  match for_each (batch_starts (12 * ((n + 11) `div` 12))) (work_batch io) f with
  | (None, f') => (returned n, f')
  | (Some e, f') => (raised e, f')
  end.
Proof.
  intros Hb. unfold work. rewrite decide_False.
  - by rewrite <- batch_starts_round_up.
  - intros [Hd _]. congruence.
Qed.

(** C10 (as amended). In a build with assertions, a call whose number of
    items is not a multiple of twelve fails the assertion before anything
    is read or changed.  In a build with NDEBUG such a call is not
    rejected: it leaves the block, the output and the tags as a call for
    the next multiple of twelve leaves them, so it processes the whole
    batch that its last items begin, and it returns its own number of
    items where that call returns. *)
Theorem work_on_partial_batch io n f :
  Z.rem n NCODERS <> 0 ->
  (NDEBUG = false -> work io n f = (raised assertion_failed, f)) /\
  (NDEBUG = true ->
   let whole := work io (12 * ((n + 11) `div` 12)) f in
   (work io n f).2 = whole.2 /\
   (work io n f).1 = match whole.1 with
                     | returned _ => returned n
                     | raised e => raised e
                     end).
Proof.
  intros Hn. split.
  - intros Hb. unfold work. by rewrite decide_True.
  - intros Hb whole. subst whole.
    rewrite (work_ndebug io n f Hb).
    rewrite (work_multiple io (12 * ((n + 11) `div` 12)) f).
    2:{ unfold NCODERS. rewrite Z.mul_comm. apply Z.rem_mul. lia. }
    by destruct (for_each _ (work_batch io) f) as [[e|] f'].
Qed.

(** C4. With decoders of one delay, over the lifetime of the block the
    fifo of every one of the twelve decoder and fifo pairs has the
    capacity 832 - 4 - D, where D is the delay of the decoder it is paired
    with: it is the size computed once in the constructor. *)
Theorem fifo_capacity_from_own_decoder c :
  one_delay -> reachable c ->
  length (fifo c) = 12%nat /\ length (viterbi c) = 12%nat /\
  forall i q v, fifo c !! i = Some q -> viterbi c !! i = Some v ->
    m_size q = ATSC_DATA_SEGMENT_LENGTH - 4 - delay v /\
    m_size q = fifo_size.
Proof.
  intros Hone Hc.
  split; [by apply reachable_fifo_length|].
  split; [by destruct (reachable_shape c Hc)|].
  intros i q v Hq Hv.
  destruct (reachable_fifo_lookup c i q Hc Hq) as [_ Hsz].
  pose proof (Forall_lookup_1 _ _ _ _ (reachable_delays c Hone Hc) Hv) as Hd.
  cbn beta in Hd. split; [|done]. rewrite Hsz, Hd. done.
Qed.

(** C2 (as amended). [reset] puts every fifo back into the state the
    constructor left it in and leaves the decoders as they are; the block
    is back in its state after construction exactly when its decoders
    are. *)
Theorem reset_clears_fifos_only c :
  reachable c ->
  fifo (reset c) = fifo atsc_viterbi_decoder_impl_new /\
  viterbi (reset c) = viterbi c /\
  (reset c = atsc_viterbi_decoder_impl_new <->
   viterbi c = viterbi atsc_viterbi_decoder_impl_new).
Proof.
  intros Hc. pose proof (reachable_reset_fifo c Hc) as Hf.
  split; [done|]. split; [done|]. split.
  - intros Heq. change (viterbi c) with (viterbi (reset c)). by rewrite Heq.
  - intros Hv. apply core_eq; [done|done].
Qed.

End Properties.

(** * The dibit packer *)

Lemma testbit_below_4 d m : 0 <= d < 4 -> 2 <= m -> Z.testbit d m = false.
Proof.
  intros Hd Hm. rewrite <- (Z.mod_small d (2 ^ 2)) by (change (2 ^ 2) with 4; lia).
  apply Z.mod_pow2_bits_high. lia.
Qed.

Lemma store_dibit_range old shift d : 0 <= store_dibit old shift d < 256.
Proof. unfold store_dibit. apply Z.mod_pos_bound. lia. Qed.

(** The two bits at [shift] become the dibit; the other six stay. *)
Lemma store_dibit_bits old shift d n :
  0 <= shift -> 0 <= d < 4 -> 0 <= n < 8 ->
  Z.testbit (store_dibit old shift d) n =
  if decide (n = shift) then Z.testbit d 0
  else if decide (n = shift + 1) then Z.testbit d 1
  else Z.testbit old n.
Proof.
  intros Hs Hd Hn. unfold store_dibit.
  change 256 with (2 ^ 8). rewrite Z.mod_pow2_bits_low by lia.
  rewrite Z.lor_spec, Z.land_spec, Z.lnot_spec by lia.
  rewrite !Z.shiftl_spec by lia.
  destruct (decide (n = shift)) as [->|Hne0].
  { rewrite Z.sub_diag. change (Z.testbit 3 0) with true. simpl.
    by rewrite andb_false_r. }
  destruct (decide (n = shift + 1)) as [->|Hne1].
  { replace (shift + 1 - shift) with 1 by lia. change (Z.testbit 3 1) with true.
    simpl. by rewrite andb_false_r. }
  destruct (decide (n < shift)) as [Hlt|Hge].
  - rewrite (Z.testbit_neg_r 3), (Z.testbit_neg_r d) by lia. simpl. by rewrite andb_true_r, orb_false_r.
  - rewrite (testbit_below_4 3), (testbit_below_4 d) by lia.
    simpl. by rewrite andb_true_r, orb_false_r.
Qed.

Section Packer.

Context {M : atsc_viterbi_mux}.

(** C9. For a table entry [b] that addresses a bit pair inside one byte,
    the packing step replaces byte [b / 8] of [out_copy] and nothing else:
    in the new byte the bits [b mod 8] and [b mod 8 + 1] are the dibit the
    fifo returned, the other six bits are those of the old byte. *)
Theorem pack_dibit_writes_bit_pair dibits (encoder k : nat)
    (ff : list fifo_t) (oc : list Z) d q old :
  let b := enco_which_dibits encoder k in
  let r := (fifo_stuff q d).1 in
  0 <= b -> b `mod` 8 < 7 ->
  dibits !! encoder ≫= (.!! k) = Some d ->
  ff !! encoder = Some q ->
  oc !! Z.to_nat (b `div` 8) = Some old ->
  0 <= r < 4 ->
  exists new,
    pack_dibit dibits encoder k (ff, oc)
      = (None, (<[encoder := (fifo_stuff q d).2]> ff,
                <[Z.to_nat (b `div` 8) := new]> oc)) /\
    0 <= new < 256 /\
    forall n, 0 <= n < 8 ->
      Z.testbit new n =
      if decide (n = b `mod` 8) then Z.testbit r 0
      else if decide (n = b `mod` 8 + 1) then Z.testbit r 1
      else Z.testbit old n.
Proof.
  intros b r Hb Hshift Hd Hq Hold Hr. subst b r.
  exists (store_dibit old (enco_which_dibits encoder k `mod` 8) (fifo_stuff q d).1).
  assert (Z.land (enco_which_dibits encoder k) 7 = enco_which_dibits encoder k `mod` 8)
    as Hland by (change 7 with (Z.ones 3); by rewrite Z.land_ones by lia).
  assert (Z.shiftr (enco_which_dibits encoder k) 3 = enco_which_dibits encoder k `div` 8)
    as Hshr by (by rewrite Z.shiftr_div_pow2 by lia).
  split; [|split].
  - unfold pack_dibit. cbn [fst snd]. rewrite Hd, Hq, Hland, Hshr.
    rewrite zlookup_nat by (apply Z.div_pos; lia). rewrite Hold.
    by destruct (fifo_stuff q d).
  - apply store_dibit_range.
  - intros n Hn. apply store_dibit_bits; [|done|done].
    apply Z.mod_pos_bound. lia.
Qed.

End Packer.

(** * The properties on the stand-ins *)

Section OnStandIns.

#[local] Existing Instance bank_uniform.
#[local] Existing Instance demo_mux.
#[local] Existing Instance demo_types.
#[local] Existing Instance debug_build.


(** Two batches of the constant sample 0 through decoders of delay 1. *)
Lemma work_misplaces_second_batch_witness :
  let io := demo_io 24 0 (demo_tags 24) in
  let f := demo_frame atsc_viterbi_decoder_impl_new in
  (work io 24 f).1 = returned 24 /\
  (forall x, 0 <= x < 12 * ATSC_MPEG_RS_ENCODED_LENGTH ->
     is_Some (out (work io 24 f).2 !! x)) /\
  (forall x, 12 * ATSC_MPEG_RS_ENCODED_LENGTH <= x < 24 * ATSC_MPEG_RS_ENCODED_LENGTH ->
     out (work io 24 f).2 !! x = out f !! x) /\
  (forall x, 144 * ATSC_MPEG_RS_ENCODED_LENGTH <= x < 156 * ATSC_MPEG_RS_ENCODED_LENGTH ->
     is_Some (out (work io 24 f).2 !! x)).
Proof.
  apply (work_misplaces_second_batch (demo_io 24 0 (demo_tags 24))
           (demo_frame atsc_viterbi_decoder_impl_new)
           demo_syms_in_range demo_dibits_in_range demo_frame_wf).
  - rewrite demo_io_length. lia_consts.
  - apply demo_tagged_24.
Defined.



(** Position 13 of 24 is segment 303 of field 0; its output tag is segment 3
    of field 1. *)
Lemma output_tag_is_input_tag_delayed_witness :
  let io := demo_io 24 0 (demo_tags 24) in
  let f := demo_frame atsc_viterbi_decoder_impl_new in
  let t := {| offset := 113; key := "plinfo"; value := 4 * 303 |} in
  first_tag io 13 = Some t /\
  exists added pli_out,
    (work io 24 f).1 = returned 24 /\
    out_tags (work io 24 f).2 = out_tags f ++ added /\
    length added = 24%nat /\
    added !! 13%nat = Some {| offset := 113; key := "plinfo";
                              value := get_tag_value pli_out |} /\
    113 = nitems_written io + 13 /\
    pli_out = plinfo_delay (from_tag_value (4 * 303)) NCODERS /\
    segno pli_out = (303 + 12) `mod` 312 /\
    field pli_out = 0 + (303 + 12) `div` 312 /\
    field_sync pli_out = false.
Proof.
  split; [reflexivity|].
  destruct (output_tag_is_input_tag_delayed (demo_io 24 0 (demo_tags 24)) 2 13
              (demo_frame atsc_viterbi_decoder_impl_new)
              {| offset := 113; key := "plinfo"; value := 4 * 303 |}
              demo_syms_in_range demo_dibits_in_range demo_frame_wf)
    as (added & pli_out & Hr & Ht & Hl & Hk & Ho & Hp & Hs & Hf & Hy).
  - rewrite demo_io_length. lia_consts.
  - apply demo_tagged_24.
  - reflexivity.
  - lia.
  - reflexivity.
  - exists added, pli_out.
    split; [exact Hr|]. split; [exact Ht|]. split; [exact Hl|].
    split; [exact Hk|]. split; [exact Ho|]. split; [exact Hp|].
    split; [exact Hs|]. split; [exact Hf|]. exact Hy.
Defined.

(** One batch of the constant sample 5. *)
Lemma gather_demultiplexes_witness :
  let inp : list (@sample bank_uniform) := replicate (12 * 832) 5 in
  let batch_input :=
    take (Z.to_nat (NCODERS * ATSC_DATA_SEGMENT_LENGTH))
         (drop (Z.to_nat (0 * ATSC_DATA_SEGMENT_LENGTH)) inp) in
  exists symbols,
    gather inp 0 = Some symbols /\ length symbols = 12%nat /\
    forall encoder k, (encoder < 12)%nat -> (k < 828)%nat ->
      0 * ATSC_DATA_SEGMENT_LENGTH <= gather_index 0 encoder k
        < (0 + NCODERS) * ATSC_DATA_SEGMENT_LENGTH /\
      exists x, symbols !! encoder ≫= (.!! k) = Some x /\
                batch_input !! Z.to_nat (enco_which_syms encoder k) = Some x.
Proof.
  apply (gather_demultiplexes (V:=bank_uniform)
           (replicate (12 * 832) 5 : list (@sample bank_uniform)) 0
           demo_syms_in_range).
  - lia.
  - rewrite length_replicate. lia_consts.
Defined.

(** A call for 13 items in the build with assertions. *)
Lemma work_on_partial_batch_witness :
  let io := demo_io 24 0 (demo_tags 24) in
  let f := demo_frame atsc_viterbi_decoder_impl_new in
  Z.rem 13 NCODERS <> 0 /\
  (NDEBUG = false -> work io 13 f = (raised assertion_failed, f)) /\
  (NDEBUG = true ->
   let whole := work io (12 * ((13 + 11) `div` 12)) f in
   (work io 13 f).2 = whole.2 /\
   (work io 13 f).1 = match whole.1 with
                      | returned _ => returned 13
                      | raised e => raised e
                      end).
Proof.
  split; [by vm_compute|].
  apply (work_on_partial_batch (demo_io 24 0 (demo_tags 24)) 13
           (demo_frame atsc_viterbi_decoder_impl_new)).
  by vm_compute.
Defined.

(** Encoder 1, slot 0 of the stand-in table: bits 2 and 3 of byte 0. *)
Lemma pack_dibit_writes_bit_pair_witness :
  let dibits := [[]; [2]] in
  let q := {| m_size := 1; m_position := 0; m_fifo := [1] |} in
  let ff := [fifo_new 0; q] in
  let b := enco_which_dibits 1 0 in
  let r := (fifo_stuff q 2).1 in
  (b = 2 /\ r = 1) /\
  pack_dibit dibits 1 0 (ff, [255])
    = (None, ([fifo_new 0; {| m_size := 1; m_position := 0; m_fifo := [2] |}], [247])) /\
  exists new,
    pack_dibit dibits 1 0 (ff, [255])
      = (None, (<[1%nat := (fifo_stuff q 2).2]> ff,
                <[Z.to_nat (b `div` 8) := new]> [255])) /\
    0 <= new < 256 /\
    forall n, 0 <= n < 8 ->
      Z.testbit new n =
      if decide (n = b `mod` 8) then Z.testbit r 0
      else if decide (n = b `mod` 8 + 1) then Z.testbit r 1
      else Z.testbit 255 n.
Proof.
  split; [split; reflexivity|]. split; [reflexivity|].
  apply (pack_dibit_writes_bit_pair [[]; [2]] 1 0
           [fifo_new 0; {| m_size := 1; m_position := 0; m_fifo := [1] |}]
           [255] 2 {| m_size := 1; m_position := 0; m_fifo := [1] |} 255);
    [by vm_compute | by vm_compute | reflexivity | reflexivity | reflexivity
    | by vm_compute].
Defined.

(** [reset] right after construction. *)
Lemma reset_clears_fifos_only_witness :
  let c := atsc_viterbi_decoder_impl_new in
  reachable c /\
  fifo (reset c) = fifo atsc_viterbi_decoder_impl_new /\
  viterbi (reset c) = viterbi c /\
  (reset c = atsc_viterbi_decoder_impl_new <->
   viterbi c = viterbi atsc_viterbi_decoder_impl_new).
Proof.
  split; [apply reachable_new|].
  apply (reset_clears_fifos_only atsc_viterbi_decoder_impl_new).
  apply reachable_new.
Defined.

End OnStandIns.

(** * Calls of one batch *)

Section OneBatch.

Context {V : atsc_single_viterbi} {M : atsc_viterbi_mux} {T : atsc_types}
        {B : build_options}.

Lemma gather_replicate (n : nat) (x : sample) i :
  syms_in_range -> 0 <= i ->
  (i + NCODERS) * ATSC_DATA_SEGMENT_LENGTH <= Z.of_nat n ->
  gather (replicate n x) i = Some (replicate 12 (replicate 828 x)).
Proof.
  intros Hsyms Hi Hn.
  destruct (gather_rows (replicate n x) i Hsyms Hi) as (symbols & -> & Hls & Hrows).
  { by rewrite length_replicate. }
  f_equal. apply list_eq. intros e.
  destruct (decide (e < 12)%nat) as [He|He].
  - destruct (Hrows e He) as (row & -> & Hlrow & Hlk).
    rewrite lookup_replicate_2 by done. f_equal.
    apply list_eq. intros k.
    destruct (decide (k < 828)%nat) as [Hk|Hk].
    + rewrite Hlk by done. rewrite !lookup_replicate_2; [done|lia|].
      specialize (Hsyms e k He Hk).
      lia_consts.
    + rewrite (proj1 (lookup_replicate_None 828 x k)) by lia.
      apply lookup_ge_None_2. lia.
  - rewrite (proj1 (lookup_replicate_None 12 (replicate 828 x) e)) by lia.
    apply lookup_ge_None_2. lia.
Qed.

Lemma work_12 io f : (work io 12 f).2 = (work_batch io 0 f).2.
Proof.
  rewrite work_multiple by done.
  change (batch_starts 12) with [0]. simpl.
  by destruct (work_batch io 0 f) as [[e|] f'].
Qed.

End OneBatch.

(** * The last dibit of a batch *)

Section LastDibit.

Context {V : atsc_single_viterbi} {M : atsc_viterbi_mux} {T : atsc_types}
        {B : build_options}.

(** The decoding loop gives row [e] of [dibits] from decoder [e] as the
    call found it. *)
Lemma decode_phase_rows (symbols : list (list sample)) (vit : list vstate) :
  length vit = 12%nat -> length symbols = 12%nat ->
  exists vit' dibits,
    for_each encoders (decode_encoder symbols) (vit, []) = (None, (vit', dibits)) /\
    forall e v row, vit !! e = Some v -> symbols !! e = Some row ->
      dibits !! e = Some (decode_run v row).1.
Proof.
  intros Hv Hs. rewrite encoders_eq.
  destruct (for_each_seq_inv
    (fun e (st : list vstate * list (list Z)) =>
       length st.1 = 12%nat /\ length st.2 = e /\
       (forall e', (e <= e')%nat -> st.1 !! e' = vit !! e') /\
       forall e' v row, (e' < e)%nat -> vit !! e' = Some v -> symbols !! e' = Some row ->
         st.2 !! e' = Some (decode_run v row).1)
    0 12 (decode_encoder symbols) (vit, [])) as ([vit' dibits] & Hrun & _ & _ & _ & Hr).
  { simpl. split; [done|]. split; [done|]. split; [done|]. intros; lia. }
  { intros e [vt ds] He (Hvt & Hds & Hkeep & Hr). simpl in *.
    destruct (lookup_lt_is_Some_2 vit e) as [v Hve]; [lia|].
    destruct (lookup_lt_is_Some_2 symbols e) as [row Hrow]; [lia|].
    unfold decode_encoder. simpl. rewrite Hkeep, Hve, Hrow by lia.
    destruct (decode_run v row) as [r v'] eqn:Hrun.
    eexists. split; [done|]. simpl.
    split; [by rewrite length_insert|].
    split; [rewrite length_app; simpl; lia|].
    split.
    - intros e' He'. rewrite list_lookup_insert_ne by lia. apply Hkeep. lia.
    - intros e' v0 row0 He' Hv0 Hrow0.
      destruct (decide (e' = e)) as [->|Hne].
      + rewrite lookup_app_r by lia. rewrite Hds, Nat.sub_diag. simpl.
        replace v0 with v by congruence. replace row0 with row by congruence.
        by rewrite Hrun.
      + rewrite lookup_app_l by lia. apply Hr; [lia|done|done]. }
  exists vit', dibits. split; [done|].
  intros e v row Hv0 Hrow0. apply Hr; [|done|done].
  apply lookup_lt_Some in Hv0. lia.
Qed.

(** What a turn of the packing loop does when it stays in its arrays. *)
Lemma pack_dibit_step dibits encoder k (st : list fifo_t * list Z) :
  dibits_in_range -> (encoder < 12)%nat -> (k < 828)%nat ->
  length dibits = 12%nat ->
  (forall e row, dibits !! e = Some row -> length row = 828%nat) ->
  length st.1 = 12%nat -> length st.2 = 2484%nat ->
  let b := enco_which_dibits encoder k in
  exists row d q old,
    dibits !! encoder = Some row /\ row !! k = Some d /\
    st.1 !! encoder = Some q /\
    st.2 !! Z.to_nat (b `div` 8) = Some old /\
    pack_dibit dibits encoder k st
    = (None, (<[encoder := (fifo_stuff q d).2]> st.1,
              <[Z.to_nat (b `div` 8) :=
                  store_dibit old (b `mod` 8) (fifo_stuff q d).1]> st.2)).
Proof.
  intros Hrange He Hk Hd Hrows Hf Hoc b. subst b.
  specialize (Hrange encoder k He Hk).
  unfold OUTPUT_SIZE, ATSC_MPEG_RS_ENCODED_LENGTH in Hrange.
  destruct (lookup_lt_is_Some_2 dibits encoder) as [row Hrow]; [lia|].
  destruct (lookup_lt_is_Some_2 row k) as [d Hdk].
  { rewrite (Hrows _ _ Hrow). lia. }
  destruct (lookup_lt_is_Some_2 st.1 encoder) as [q Hq]; [lia|].
  assert (0 <= enco_which_dibits encoder k `div` 8 < 2484) as Hidx.
  { split; [apply Z.div_pos; lia | apply Z.div_lt_upper_bound; lia]. }
  destruct (lookup_lt_is_Some_2 st.2 (Z.to_nat (enco_which_dibits encoder k `div` 8)))
    as [old Hold]; [lia|].
  exists row, d, q, old. split; [done|]. split; [done|]. split; [done|]. split; [done|].
  unfold pack_dibit. rewrite Hrow. simpl. rewrite Hdk, Hq.
  rewrite Z.shiftr_div_pow2 by lia. change (2 ^ 3) with 8.
  change 7 with (Z.ones 3). rewrite Z.land_ones by lia. change (2 ^ 3) with 8.
  rewrite zlookup_nat by lia. rewrite Hold.
  by destruct (fifo_stuff q d).
Qed.

(** The first [n] turns of the packing loop for [encoder] feed the first
    [n] dibits of its row to its fifo and leave the other fifos alone. *)
Lemma pack_row_feeds_fifo dibits (encoder n : nat) row q (st : list fifo_t * list Z) :
  dibits_in_range -> (encoder < 12)%nat -> (n <= 828)%nat ->
  length dibits = 12%nat ->
  (forall e r, dibits !! e = Some r -> length r = 828%nat) ->
  length st.1 = 12%nat -> length st.2 = 2484%nat ->
  dibits !! encoder = Some row -> st.1 !! encoder = Some q ->
  exists st',
    for_each (seq 0 n) (pack_dibit dibits encoder) st = (None, st') /\
    length st'.1 = 12%nat /\ length st'.2 = 2484%nat /\
    st'.1 !! encoder = Some (fifo_feed q (take n row)).2 /\
    forall e, e <> encoder -> st'.1 !! e = st.1 !! e.
Proof.
  intros Hrange He Hn Hd Hrows Hf Hoc Hrow Hq.
  destruct (for_each_seq_inv
    (fun k (s : list fifo_t * list Z) =>
       length s.1 = 12%nat /\ length s.2 = 2484%nat /\
       s.1 !! encoder = Some (fifo_feed q (take k row)).2 /\
       forall e, e <> encoder -> s.1 !! e = st.1 !! e)
    0 n (pack_dibit dibits encoder) st) as (st' & Hrun & H'); [| |by exists st'].
  { split; [done|]. split; [done|]. split; [by rewrite take_0|done]. }
  intros k s Hk (Hs1 & Hs2 & Hsq & Hse).
  destruct (pack_dibit_step dibits encoder k s Hrange He ltac:(lia) Hd Hrows Hs1 Hs2)
    as (row' & d & q' & old & Hrow' & Hdk & Hq' & _ & ->).
  eexists. split; [done|]. cbn [fst snd].
  split; [by rewrite length_insert|]. split; [by rewrite length_insert|].
  split.
  - rewrite list_lookup_insert_eq by lia. f_equal.
    replace row' with row in Hdk by congruence.
    replace q' with (fifo_feed q (take k row)).2 by congruence.
    rewrite (take_S_r _ _ _ Hdk). by rewrite (proj1 (fifo_feed_snoc _ _ _)).
  - intros e Hne. rewrite list_lookup_insert_ne by done. by apply Hse.
Qed.

(** The dibit a fifo returns after [length l] earlier calls. *)
Lemma fifo_feed_next q l d x :
  fifo_wf q ->
  (fifo_contents q ++ l ++ [d]) !! length l = Some x ->
  (fifo_stuff (fifo_feed q l).2 d).1 = x.
Proof.
  intros Hwf Hx.
  destruct (fifo_feed_snoc q l d) as [_ Hout].
  pose proof (fifo_feed_delay_line q (l ++ [d]) Hwf) as Hline.
  rewrite Hout in Hline.
  assert (((fifo_feed q l).1 ++ [(fifo_stuff (fifo_feed q l).2 d).1]) !! length l
          = Some x) as Hlk.
  { rewrite Hline, lookup_take_lt by (rewrite length_app; simpl; lia). done. }
  rewrite lookup_app_r in Hlk by (rewrite fifo_feed_length; lia).
  rewrite fifo_feed_length, Nat.sub_diag in Hlk. simpl in Hlk. congruence.
Qed.

(** The last turn of the packing loop is that of encoder 11 and slot 827:
    the byte it stores is in [out_copy] when the loop ends. *)
Lemma pack_phase_last dibits (ff : list fifo_t) (oc : list Z) q row r :
  dibits_in_range -> length dibits = 12%nat ->
  (forall e rw, dibits !! e = Some rw -> length rw = 828%nat) ->
  length ff = 12%nat -> length oc = 2484%nat ->
  ff !! 11%nat = Some q -> fifo_wf q ->
  dibits !! 11%nat = Some row ->
  (fifo_contents q ++ row) !! 827%nat = Some r ->
  let b := enco_which_dibits 11 827 in
  exists ff' oc' old,
    for_each encoders (fun encoder => for_each slots (pack_dibit dibits encoder)) (ff, oc)
      = (None, (ff', oc')) /\
    length oc' = 2484%nat /\
    oc' !! Z.to_nat (b `div` 8) = Some (store_dibit old (b `mod` 8) r).
Proof.
  intros Hrange Hd Hrows Hf Hoc Hq Hwf Hrow Hr b. subst b.
  rewrite encoders_eq, slots_eq.
  (* encoders 0 .. 10 *)
  destruct (for_each_seq_inv
    (fun (_ : nat) (s : list fifo_t * list Z) =>
       length s.1 = 12%nat /\ length s.2 = 2484%nat /\ s.1 !! 11%nat = Some q)
    0 11 (fun encoder => for_each (seq 0 828) (pack_dibit dibits encoder)) (ff, oc))
    as (st11 & Hrun11 & Hs1 & Hs2 & Hs11); [done| |].
  { intros e s He (H1 & H2 & H11).
    destruct (lookup_lt_is_Some_2 dibits e) as [rw Hrw]; [lia|].
    destruct (lookup_lt_is_Some_2 s.1 e) as [qe Hqe]; [lia|].
    destruct (pack_row_feeds_fifo dibits e 828 rw qe s Hrange) as (s' & -> & H1' & H2' & _ & Hoth);
      [lia|lia|done|done|done|done|done|done|].
    exists s'. split; [done|]. split; [done|]. split; [done|].
    rewrite Hoth by lia. done. }
  rewrite (seq_split_at 12 11) by lia. rewrite for_each_app, Hrun11.
  change (seq 12 (12 - 12)) with (@nil nat). cbn [for_each].
  (* encoder 11, slots 0 .. 826 *)
  rewrite (seq_split_at 828 827) by lia. rewrite for_each_app.
  destruct (pack_row_feeds_fifo dibits 11 827 row q st11 Hrange)
    as (s' & -> & H1' & H2' & Hq' & _); [lia|lia|done|done|done|done|done|done|].
  change (seq 828 (828 - 828)) with (@nil nat). cbn [for_each].
  (* encoder 11, slot 827 *)
  destruct (pack_dibit_step dibits 11 827 s' Hrange ltac:(lia) ltac:(lia) Hd Hrows H1' H2')
    as (row' & d & q' & old & Hrow' & Hdk & Hq'' & Hold & ->).
  replace row' with row in Hdk by congruence.
  assert ((fifo_stuff q' d).1 = r) as ->.
  { replace q' with (fifo_feed q (take 827 row)).2 by congruence.
    apply fifo_feed_next; [done|].
    assert (length row = 828%nat) as Hlen by (by eapply Hrows).
    rewrite length_take, Nat.min_l by lia.
    rewrite <- (take_S_r _ _ _ Hdk).
    rewrite (take_ge row) by lia. done. }
  eexists _, _, old. split; [done|]. split; [by rewrite length_insert|].
  apply list_lookup_insert_eq. by eapply lookup_lt_Some.
Qed.

(** In the first batch of a call the copy loop stores [out_copy] at the
    start of [out]. *)
Lemma copy_loop_first_batch io f :
  length (out_copy f) = 2484%nat ->
  (forall j, (j < 12)%nat -> is_Some (first_tag io (Z.of_nat j))) ->
  exists f',
    for_each encoders (copy_segment io 0) f = (None, f') /\
    forall x, 0 <= x < 2484 -> out f' !! x = out_copy f !! Z.to_nat x.
Proof.
  intros Hoc Htag. rewrite encoders_eq.
  destruct (for_each_seq_inv
    (fun j f' => out_copy f' = out_copy f /\
       forall x, 0 <= x < Z.of_nat j * 207 -> out f' !! x = out_copy f !! Z.to_nat x)
    0 12 (copy_segment io 0) f) as (f' & Hrun & _ & Hout).
  { split; [done|]. intros x Hx. lia. }
  { intros j f0 Hj [Hc0 Ho0].
    destruct (Htag j) as [t Ht]; [lia|].
    destruct (copy_segment_ok io 0 j f0 t) as (f' & Hrun & _ & Hc' & _ & Ho');
      [lia|congruence|done|].
    change (Z.of_nat 0 * NCODERS) with 0 in Hrun.
    exists f'. split; [done|]. split; [congruence|].
    intros x Hx. rewrite Ho'. cbn zeta.
    rewrite segment_start_eq by lia.
    unfold out_index, NCODERS, ATSC_MPEG_RS_ENCODED_LENGTH.
    destruct (decide (_ <= x < _)) as [Hin|Hout].
    - rewrite Hc0. f_equal. lia.
    - apply Ho0. lia. }
  exists f'. split; [done|]. intros x Hx. apply Hout. lia.
Qed.

(** The dibit that decoder 11 and its fifo give for the last slot of the
    first batch is stored in the output of the call, in the bit pair the
    table names. *)
Lemma last_dibit_in_output io f symbols srow v q r :
  dibits_in_range -> wf_frame f ->
  (forall j, (j < 12)%nat -> is_Some (first_tag io (Z.of_nat j))) ->
  gather (in_ io) 0 = Some symbols -> length symbols = 12%nat ->
  (forall e rw, symbols !! e = Some rw -> length rw = 828%nat) ->
  symbols !! 11%nat = Some srow ->
  viterbi (self f) !! 11%nat = Some v ->
  fifo (self f) !! 11%nat = Some q -> fifo_wf q ->
  (fifo_contents q ++ (decode_run v srow).1) !! 827%nat = Some r ->
  let b := enco_which_dibits 11 827 in
  exists old,
    out (work io 12 f).2 !! (b `div` 8) = Some (store_dibit old (b `mod` 8) r).
Proof.
  intros Hdibits [[Hv Hf] Hoc] Htag Hg Hls Hrows Hsrow Hv11 Hq Hwf Hr b. subst b.
  change (Z.to_nat NCODERS) with 12%nat in *.
  change (Z.to_nat OUTPUT_SIZE) with 2484%nat in *.
  rewrite work_12. unfold work_batch. rewrite Hg.
  destruct (decode_phase symbols (viterbi (self f)) Hv Hls Hrows)
    as (vit & dibits & Hrun & _ & Hld & Hdrows).
  destruct (decode_phase_rows symbols (viterbi (self f)) Hv Hls)
    as (vit' & dibits' & Hrun' & Hrw).
  rewrite Hrun in Hrun'. injection Hrun' as <- <-. rewrite Hrun.
  destruct (pack_phase_last dibits (fifo (self f)) (out_copy f) q
              (decode_run v srow).1 r Hdibits Hld Hdrows Hf Hoc Hq Hwf)
    as (ff & oc & old & -> & Hloc & Hbyte); [by apply Hrw|done|].
  destruct (copy_loop_first_batch io
              {| self := {| viterbi := vit; fifo := ff |}; out_copy := oc;
                 out := out f; out_tags := out_tags f |} Hloc Htag)
    as (f' & -> & Hout).
  exists old. cbn [snd]. rewrite Hout; [done|].
  apply lookup_lt_Some in Hbyte. rewrite Hloc in Hbyte.
  specialize (Hdibits 11%nat 827%nat ltac:(lia) ltac:(lia)).
  split; [apply Z.div_pos; lia|]. lia.
Qed.

End LastDibit.

(** * Decoders that are not reset *)

Section ResetOnStandIns.

#[local] Existing Instance bank_uniform.
#[local] Existing Instance demo_mux.
#[local] Existing Instance demo_types.
#[local] Existing Instance debug_build.

Lemma demo_gather x tags :
  gather (in_ (demo_io 12 x tags)) 0 = Some (replicate 12 (replicate 828 x)).
Proof.
  apply (gather_replicate (V:=bank_uniform) (12 * 832) x 0 demo_syms_in_range); [lia|].
  lia_consts.
Qed.

Lemma used_core_reachable : reachable used_core.
Proof. apply reachable_work, reachable_new. Qed.

Lemma used_core_viterbi : viterbi used_core = replicate 12 [3].
Proof.
  unfold used_core. rewrite work_12.
  apply (work_batch_viterbi (demo_io 12 3 (demo_tags 12)) 0
           (demo_frame atsc_viterbi_decoder_impl_new)
           (replicate 12 (replicate 828 3)) (replicate 12 [3])
           (replicate 12 (0 :: replicate 827 3))).
  - apply demo_gather.
  - vm_cast_no_check (eq_refl (@None failure,
      (replicate 12%nat [3], replicate 12%nat (0 :: replicate 827%nat 3)))).
Qed.

#[local] Opaque used_core.

(** The block after a call: its decoders hold the decision 3, and every
    fifo still has the capacity 832 - 4 - 1. *)
Lemma fifo_capacity_from_own_decoder_witness :
  one_delay /\ reachable used_core /\
  length (fifo used_core) = 12%nat /\ length (viterbi used_core) = 12%nat /\
  forall i q v, fifo used_core !! i = Some q -> viterbi used_core !! i = Some v ->
    m_size q = ATSC_DATA_SEGMENT_LENGTH - 4 - delay v /\
    m_size q = fifo_size.
Proof.
  split; [apply uniform_one_delay|]. split; [apply used_core_reachable|].
  apply (fifo_capacity_from_own_decoder used_core uniform_one_delay
           used_core_reachable).
Defined.

Lemma used_core_reset :
  reset used_core = {| viterbi := replicate 12 [3];
                       fifo := fifo atsc_viterbi_decoder_impl_new |}.
Proof.
  apply core_eq.
  - rewrite reset_viterbi. apply used_core_viterbi.
  - apply reachable_reset_fifo, used_core_reachable.
Qed.

(** The last dibit of the first batch, for a block whose decoder 11 is in
    the state [v] and whose fifos are as after construction, on twelve
    segments of the sample 0: it is the decision [v] holds. *)
Lemma demo_last_dibit (vit : list (@vstate bank_uniform)) (v r : Z) :
  length vit = 12%nat -> vit !! 11%nat = Some [v] -> r = v `mod` 256 ->
  exists old,
    out (work (demo_io 12 0 (demo_tags 12)) 12
           (demo_frame {| viterbi := vit;
                          fifo := fifo atsc_viterbi_decoder_impl_new |})).2 !! 2483
    = Some (store_dibit old 6 r).
Proof.
  intros Hlen Hv ->.
  apply (last_dibit_in_output (demo_io 12 0 (demo_tags 12))
           (demo_frame {| viterbi := vit; fifo := fifo atsc_viterbi_decoder_impl_new |})
           (replicate 12 (replicate 828 0)) (replicate 828 0) [v] (fifo_new 827)
           (v `mod` 256) demo_dibits_in_range).
  - split; [split|]; [done|reflexivity|reflexivity].
  - intros j Hj. by apply demo_tagged_12.
  - apply demo_gather.
  - reflexivity.
  - intros e rw Hrw. apply lookup_replicate in Hrw as [-> _]. apply length_replicate.
  - reflexivity.
  - done.
  - reflexivity.
  - apply (fifo_reset_wf (fifo_new 827)).
  - reflexivity.
Qed.

(** C2 (counterexample). After a call on twelve segments of the sample 3
    and a [reset], every decoder still holds the decision 3 where the
    decoders of a new block hold 0, and on twelve further segments of the
    sample 0 the last byte of the output differs from the one a new block
    stores: its bit 6 is set. *)
Lemma reset_keeps_trellis_state :
  let io := demo_io 12 0 (demo_tags 12) in
  reachable used_core /\
  viterbi (reset used_core) = replicate 12 [3] /\
  viterbi atsc_viterbi_decoder_impl_new = replicate 12 [0] /\
  reset used_core <> atsc_viterbi_decoder_impl_new /\
  exists b1 b2,
    out (work io 12 (demo_frame (reset used_core))).2 !! 2483 = Some b1 /\
    out (work io 12 (demo_frame atsc_viterbi_decoder_impl_new)).2 !! 2483 = Some b2 /\
    Z.testbit b1 6 = true /\ Z.testbit b2 6 = false.
Proof.
  intros io. subst io.
  split; [apply used_core_reachable|].
  split; [by rewrite used_core_reset|].
  split; [reflexivity|].
  split; [by rewrite used_core_reset|].
  rewrite used_core_reset.
  destruct (demo_last_dibit (replicate 12 [3]) 3 3) as [old1 H1]; [done|done|done|].
  destruct (demo_last_dibit (replicate 12 [0]) 0 0) as [old2 H2]; [done|done|done|].
  exists (store_dibit old1 6 3), (store_dibit old2 6 0).
  split; [exact H1|]. split; [exact H2|].
  split; by rewrite store_dibit_bits by lia.
Qed.

End ResetOnStandIns.

(** * A partial batch in a build without assertions *)

Section OnReleaseBuild.

#[local] Existing Instance bank_uniform.
#[local] Existing Instance demo_mux.
#[local] Existing Instance demo_types.
#[local] Existing Instance release_build.

(** C10 (counterexample). Built with NDEBUG, a call for 13 items on an
    input of 24 tagged segments is not rejected: it returns 13 after it
    has run two whole batches, with 24 tags attached and the bytes of the
    first batch stored. *)
Lemma work_release_build_runs_partial_batch :
  let r := work (demo_io 24 0 (demo_tags 24)) 13
             (demo_frame atsc_viterbi_decoder_impl_new) in
  NDEBUG = true /\ Z.rem 13 NCODERS <> 0 /\
  r.1 = returned 13 /\
  length (out_tags r.2) = 24%nat /\
  (forall x, 0 <= x < 12 * ATSC_MPEG_RS_ENCODED_LENGTH -> is_Some (out r.2 !! x)).
Proof.
  intros r. subst r.
  split; [reflexivity|]. split; [by vm_compute|].
  rewrite work_ndebug by reflexivity.
  change (12 * ((13 + 11) `div` 12)) with (Z.of_nat (12 * 2)).
  rewrite batch_starts_eq, for_each_fmap.
  destruct (batches_complete (demo_io 24 0 (demo_tags 24)) 2
              (demo_frame atsc_viterbi_decoder_impl_new)
              demo_syms_in_range demo_dibits_in_range demo_frame_wf)
    as (f' & -> & _ & Ht & Hw & _).
  { rewrite demo_io_length. lia_consts. }
  { apply demo_tagged_24. }
  cbn [fst snd]. split; [done|]. split.
  - rewrite Ht. cbn [out_tags demo_frame app].
    apply (emitted_tags_all (demo_io 24 0 (demo_tags 24)) 0 (12 * 2)).
    intros q Hq. apply demo_tagged_24. lia.
  - intros x Hx. apply Hw.
    apply (written_app 0 12 12). left. apply written_first_batch.
    unfold ATSC_MPEG_RS_ENCODED_LENGTH in Hx. lia.
Qed.

End OnReleaseBuild.

(** * Further properties of the block *)

(** * Loops that may stop early *)

Lemma for_each_ext_in {X S} (xs : list X) (body body' : X -> S -> option failure * S) s :
  (forall x s0, x ∈ xs -> body x s0 = body' x s0) ->
  for_each xs body s = for_each xs body' s.
Proof.
  revert s. induction xs as [|x xs IH]; intros s H; simpl; [done|].
  rewrite <- (H x s) by left. destruct (body x s) as [[e|] s']; [done|].
  apply IH. intros y s0 Hy. apply H. by right.
Qed.

Lemma mapM_ext_in {A B} (f g : A -> option B) l :
  (forall x, x ∈ l -> f x = g x) -> mapM f l = mapM g l.
Proof.
  induction l as [|x l IH]; intros H; [done|].
  cbn. rewrite (H x) by left. rewrite IH; [done|].
  intros y Hy. apply H. by right.
Qed.

(** A counting loop, whether it runs to its end or stops: an invariant
    indexed by the counter holds at the end, and what each failing turn
    establishes holds where the loop stopped. *)
Lemma for_each_seq_any {S} (P : nat -> S -> Prop) (Q : S -> Prop) a n
    (body : nat -> S -> option failure * S) s :
  P a s ->
  (forall x s0, (a <= x < a + n)%nat -> P x s0 ->
     match body x s0 with
     | (None, s') => P (Datatypes.S x) s'
     | (Some _, s') => Q s'
     end) ->
  match for_each (seq a n) body s with
  | (None, s') => P (a + n)%nat s'
  | (Some _, s') => Q s'
  end.
Proof.
  revert a s. induction n as [|n IH]; intros a s Hs Hb; simpl.
  { by rewrite Nat.add_0_r. }
  specialize (Hb a s ltac:(lia) Hs) as Ha.
  destruct (body a s) as [[e|] s1]; [done|].
  replace (a + Datatypes.S n)%nat with (Datatypes.S a + n)%nat by lia.
  apply IH; [done|]. intros x s0 Hx. apply Hb. lia.
Qed.

(** * The tags a call attaches *)

Section Tags.

Context {V : atsc_single_viterbi} {M : atsc_viterbi_mux} {T : atsc_types}
        {B : build_options}.

Lemma copy_segment_tags io (b j : nat) f :
  match copy_segment io (Z.of_nat b * NCODERS) j f with
  | (None, f') => is_Some (first_tag io (Z.of_nat (12 * b + j))) /\
                  out_tags f' = out_tags f ++ emitted_tags io (12 * b + j) 1
  | (Some _, f') => f' = f
  end.
Proof.
  unfold copy_segment.
  replace (Z.of_nat b * NCODERS + Z.of_nat j) with (Z.of_nat (12 * b + j))
    by lia_consts.
  destruct (get_tags_in_window _ _ _ _ _) as [|t rest] eqn:Hw; [done|].
  destruct (memcpy _ _ _ _ _) as [o'|]; [|done].
  assert (first_tag io (Z.of_nat (12 * b + j)) = Some t) as Ht
    by (unfold first_tag; by rewrite Hw).
  split; [by eexists|]. cbn [out_tags].
  unfold add_item_tag. f_equal. symmetry. apply emitted_tags_one.
  unfold out_tag. rewrite Ht. cbn [fmap option_fmap option_map].
  do 2 f_equal. lia_consts.
Qed.

Lemma tagged_prefix_snoc io f m f1 f2 :
  tagged_prefix io f m f1 ->
  is_Some (first_tag io (Z.of_nat m)) ->
  out_tags f2 = out_tags f1 ++ emitted_tags io m 1 ->
  tagged_prefix io f (S m) f2.
Proof.
  intros [Htag Ht] Hm H2. split.
  - intros q Hq. destruct (decide (q = m)) as [->|Hne]; [done|]. apply Htag. lia.
  - rewrite H2, Ht. replace (S m) with (m + 1)%nat by lia.
    rewrite emitted_tags_app, <- app_assoc. done.
Qed.

Lemma work_batch_tags io (b : nat) f0 f :
  tagged_prefix io f0 (12 * b) f ->
  match work_batch io (Z.of_nat b * NCODERS) f with
  | (None, f') => tagged_prefix io f0 (12 * S b) f'
  | (Some _, f') => exists m, (m < 12 * S b)%nat /\ tagged_prefix io f0 m f'
  end.
Proof.
  intros Hf. unfold work_batch.
  destruct (gather (in_ io) _) as [symbols|].
  2:{ exists (12 * b)%nat. split; [lia|done]. }
  destruct (for_each encoders (decode_encoder symbols) _) as [[e|] [vit dibits]].
  { exists (12 * b)%nat. split; [lia|]. exact Hf. }
  destruct (for_each encoders _ (fifo (self f), out_copy f)) as [[e|] [ff oc]].
  { exists (12 * b)%nat. split; [lia|]. exact Hf. }
  rewrite encoders_eq.
  pose proof (for_each_seq_any
    (fun j f' => tagged_prefix io f0 (12 * b + j) f')
    (fun f' => exists m, (m < 12 * S b)%nat /\ tagged_prefix io f0 m f')
    0 12 (copy_segment io (Z.of_nat b * NCODERS))
    {| self := {| viterbi := vit; fifo := ff |}; out_copy := oc;
       out := out f; out_tags := out_tags f |}) as Hloop.
  lapply Hloop; [clear Hloop; intros Hloop|].
  2:{ rewrite Nat.add_0_r. exact Hf. }
  lapply Hloop; [clear Hloop; intros Hloop|].
  2:{ intros j f1 Hj Hf1.
      pose proof (copy_segment_tags io b j f1) as Hseg.
      destruct (copy_segment io (Z.of_nat b * NCODERS) j f1) as [[e|] f2].
      - subst f2. exists (12 * b + j)%nat. split; [lia|done].
      - destruct Hseg as [Hsome Htags].
        replace (12 * b + S j)%nat with (S (12 * b + j)) by lia.
        by eapply tagged_prefix_snoc. }
  destruct (for_each (seq 0 12) _ _) as [[e|] f']; [done|].
  replace (12 * S b)%nat with (12 * b + (0 + 12))%nat by lia. done.
Qed.

Lemma rem_12_multiple n :
  Z.rem n NCODERS = 0 -> 0 < n -> n = Z.of_nat (12 * Z.to_nat (n `quot` 12)).
Proof.
  unfold NCODERS. intros Hrem Hn.
  pose proof (Z.quot_rem' n 12) as Hq. rewrite Hrem in Hq.
  assert (0 <= n `quot` 12) by (apply Z.quot_pos; lia). lia.
Qed.

Lemma batch_starts_nonpos n : n <= 0 -> batch_starts n = [].
Proof.
  intros Hn. unfold batch_starts, NCODERS.
  assert ((n + (12 - 1)) `div` 12 <= 0) as Hd.
  { assert ((n + (12 - 1)) `div` 12 < 1); [|lia].
    apply Z.div_lt_upper_bound; lia. }
  replace (Z.to_nat _) with 0%nat by lia. done.
Qed.

Lemma work_tags io n f :
  Z.rem n NCODERS = 0 ->
  exists m : nat,
    tagged_prefix io f m (work io n f).2 /\
    Z.of_nat m <= Z.max 0 n /\
    ((exists n', (work io n f).1 = returned n') -> Z.of_nat m = Z.max 0 n).
Proof.
  intros Hrem.
  assert (tagged_prefix io f 0 f) as H0.
  { split; [intros q Hq; lia|]. by rewrite app_nil_r. }
  rewrite work_multiple by done.
  destruct (decide (n <= 0)) as [Hn|Hn].
  { rewrite batch_starts_nonpos by done. simpl.
    exists 0%nat. split; [done|]. split; lia. }
  rewrite (rem_12_multiple n Hrem) by lia.
  set (nb := Z.to_nat (n `quot` 12)).
  rewrite batch_starts_eq, for_each_fmap.
  pose proof (for_each_seq_any
    (fun b f' => tagged_prefix io f (12 * b) f')
    (fun f' => exists m, (m < 12 * nb)%nat /\ tagged_prefix io f m f')
    0 nb (fun b => work_batch io (Z.of_nat b * NCODERS)) f) as Hloop.
  lapply Hloop; [clear Hloop; intros Hloop|done].
  lapply Hloop; [clear Hloop; intros Hloop|].
  2:{ intros b f1 Hb Hf1.
      pose proof (work_batch_tags io b f f1 Hf1) as Hbatch.
      destruct (work_batch io (Z.of_nat b * NCODERS) f1) as [[e|] f2]; [|done].
      destruct Hbatch as (m & Hm & Hpre). exists m. split; [lia|done]. }
  destruct (for_each (seq 0 nb) _ f) as [[e|] f'].
  - destruct Hloop as (m & Hm & Hpre). exists m. split; [done|].
    split; [lia|]. intros [n' Hn']. done.
  - exists (12 * nb)%nat. split; [done|]. split; lia.
Qed.

(** X1. Whatever a call of [work] for a multiple of twelve items does,
    the tags it attaches are made from the plinfo tags of a run of
    positions from the start of the call, in order and nothing else: tag
    [k] sits at [nitems_written + k], has the key plinfo and carries the
    plinfo of the first input tag of position [k] delayed by twelve
    segments; and a call that returns has attached one tag for each of its
    positions. *)
Theorem work_attaches_only_delayed_input_tags io n f :
  Z.rem n NCODERS = 0 ->
  exists added,
    out_tags (work io n f).2 = out_tags f ++ added /\
    Z.of_nat (length added) <= Z.max 0 n /\
    (forall k t, added !! k = Some t ->
       exists t_in, first_tag io (Z.of_nat k) = Some t_in /\
         t = {| offset := nitems_written io + Z.of_nat k; key := "plinfo";
                value := get_tag_value
                           (plinfo_delay (from_tag_value (value t_in)) NCODERS) |}) /\
    ((exists n', (work io n f).1 = returned n') ->
     Z.of_nat (length added) = Z.max 0 n).
Proof.
  intros Hrem.
  destruct (work_tags io n f Hrem) as (m & [Htag Hout] & Hm & Hret).
  destruct (emitted_tags_all io 0 m) as [Hlen Hlk].
  { intros q Hq. apply Htag. lia. }
  exists (emitted_tags io 0 m). rewrite Hlen.
  split; [done|]. split; [done|]. split; [|done].
  intros k t Hk.
  assert (k < m)%nat as Hkm by (apply lookup_lt_Some in Hk; lia).
  rewrite Hlk in Hk by done. simpl in Hk.
  destruct (Htag k Hkm) as [t_in Ht]. exists t_in. split; [done|].
  unfold out_tag in Hk. rewrite Ht in Hk. simpl in Hk. by injection Hk as <-.
Qed.

End Tags.

Section Calls.

Context {V : atsc_single_viterbi} {M : atsc_viterbi_mux} {T : atsc_types}
        {B : build_options}.

(** Either every position below [n] carries a tag, or there is a first
    one that does not. *)
Lemma first_untagged io (n : nat) :
  (forall q, (q < n)%nat -> is_Some (first_tag io (Z.of_nat q))) \/
  exists p, (p < n)%nat /\
    (forall q, (q < p)%nat -> is_Some (first_tag io (Z.of_nat q))) /\
    first_tag io (Z.of_nat p) = None.
Proof.
  induction n as [|n [IH|IH]].
  - left. intros q Hq. lia.
  - destruct (first_tag io (Z.of_nat n)) as [t|] eqn:Ht.
    + left. intros q Hq. destruct (decide (q = n)) as [->|Hne].
      * by rewrite Ht.
      * apply IH. lia.
    + right. exists n. split; [lia|]. done.
  - right. destruct IH as (p & Hp & Hbefore & Hnone).
    exists p. split; [lia|]. done.
Qed.

(** X2. A call for no segments, or for a negative multiple of twelve,
    returns its argument at once: nothing is read, and neither the block
    nor the output changes. *)
Theorem work_without_segments io n f :
  Z.rem n NCODERS = 0 -> n <= 0 -> work io n f = (returned n, f).
Proof.
  intros Hrem Hn. rewrite work_multiple by done.
  by rewrite batch_starts_nonpos.
Qed.

(** X3. On an input that holds the segments of the call, and with tables
    that stay inside their arrays, the call has two outcomes only: it
    returns the number of segments exactly when every position carries a
    plinfo tag, and it raises the runtime error exactly when some position
    carries none. *)
Theorem work_returns_iff_all_tagged io (nb : nat) f :
  syms_in_range -> dibits_in_range -> wf_frame f ->
  Z.of_nat (12 * nb) * ATSC_DATA_SEGMENT_LENGTH <= Z.of_nat (length (in_ io)) ->
  let r := work io (Z.of_nat (12 * nb)) f in
  (r.1 = returned (Z.of_nat (12 * nb)) <->
   forall q, (q < 12 * nb)%nat -> is_Some (first_tag io (Z.of_nat q))) /\
  (r.1 = raised (runtime_error "No plinfo on tag") <->
   exists q, (q < 12 * nb)%nat /\ first_tag io (Z.of_nat q) = None) /\
  (r.1 = returned (Z.of_nat (12 * nb)) \/
   r.1 = raised (runtime_error "No plinfo on tag")).
Proof.
  intros Hsyms Hdibits Hwf Hin r. subst r.
  destruct (first_untagged io (12 * nb)) as [Hall|(p & Hp & Hbefore & Hnone)].
  - destruct (work_run io nb (12 * nb) f Hsyms Hdibits Hwf Hin) as (f' & Hrun & _);
      [lia|done|lia|].
    unfold tag_outcome in Hrun. rewrite decide_True in Hrun by done.
    rewrite Hrun. cbn [fst]. split; [|split; [|by left]]; split; try done.
    intros (q & Hq & Hnone). destruct (Hall q Hq) as [t Ht]. congruence.
  - destruct (work_run io nb p f Hsyms Hdibits Hwf Hin) as (f' & Hrun & _);
      [lia|done|done|].
    unfold tag_outcome in Hrun. rewrite decide_False in Hrun by lia.
    rewrite Hrun. cbn [fst]. split; [|split; [|by right]]; split; try done.
    + intros Hall. destruct (Hall p Hp) as [t Ht]. congruence.
    + intros _. by exists p.
Qed.

(** The copy loop of the first batch, all of whose positions are tagged. *)
Lemma copy_loop_first_batch_full io f :
  length (out_copy f) = 2484%nat ->
  (forall j, (j < 12)%nat -> is_Some (first_tag io (Z.of_nat j))) ->
  exists f',
    for_each encoders (copy_segment io 0) f = (None, f') /\
    self f' = self f /\ out_copy f' = out_copy f /\
    out_tags f' = out_tags f ++ emitted_tags io 0 12 /\
    (forall x, 0 <= x < 2484 -> out f' !! x = out_copy f !! Z.to_nat x) /\
    (forall x, ~ 0 <= x < 2484 -> out f' !! x = out f !! x).
Proof.
  intros Hoc Htag.
  destruct (copy_loop_first_batch io f Hoc Htag) as (f1 & Hrun1 & Hout).
  destruct (copy_loop io 0 12 f Hoc) as (f2 & Hrun2 & Hself & Hcopy & Ht & _ & Hn);
    [lia|done|lia|].
  change (Z.of_nat 0 * NCODERS) with 0 in Hrun2.
  change (tag_outcome 12 12) with (@None failure) in Hrun2.
  rewrite Hrun1 in Hrun2. injection Hrun2 as <-.
  exists f1. split; [done|]. split; [done|]. split; [done|]. split; [done|].
  split; [done|]. intros x Hx. apply Hn. by rewrite written_first_batch.
Qed.

End Calls.

(** * The state of the block after a batch *)

Section Advance.

Context {V : atsc_single_viterbi} {M : atsc_viterbi_mux} {T : atsc_types}
        {B : build_options}.

(** The decoding loop leaves every decoder as its row left it and gives
    one row of dibits per decoder. *)
Lemma decode_phase_states (symbols : list (list sample)) (vit : list vstate) :
  length vit = 12%nat -> length symbols = 12%nat ->
  for_each encoders (decode_encoder symbols) (vit, [])
  = (None, (zip_with (fun v row => (decode_run v row).2) vit symbols,
            zip_with (fun v row => (decode_run v row).1) vit symbols)).
Proof.
  intros Hv Hs. rewrite encoders_eq.
  set (zv := zip_with (fun v row => (decode_run v row).2) vit symbols).
  set (zd := zip_with (fun v row => (decode_run v row).1) vit symbols).
  destruct (for_each_seq_inv
    (fun e (st : list vstate * list (list Z)) =>
       length st.1 = 12%nat /\ length st.2 = e /\
       (forall e', st.1 !! e' = if decide (e' < e)%nat then zv !! e' else vit !! e') /\
       forall e', (e' < e)%nat -> st.2 !! e' = zd !! e')
    0 12 (decode_encoder symbols) (vit, []))
    as ([vit' dibits] & Hrun & Hlv & Hld & Hvs & Hds).
  { simpl. split; [done|]. split; [done|]. split; [done|]. intros; lia. }
  { intros e [vt ds] He (Hvt & Hds & Hkeep & Hr). simpl in *.
    destruct (lookup_lt_is_Some_2 vit e) as [v Hve]; [lia|].
    destruct (lookup_lt_is_Some_2 symbols e) as [row Hrow]; [lia|].
    unfold decode_encoder. simpl.
    rewrite Hkeep, decide_False, Hve, Hrow by lia.
    destruct (decode_run v row) as [r v'] eqn:Hrun.
    eexists. split; [done|]. simpl.
    split; [by rewrite length_insert|].
    split; [rewrite length_app; simpl; lia|].
    split.
    - intros e'. destruct (decide (e' = e)) as [->|Hne].
      + rewrite list_lookup_insert_eq by lia. rewrite decide_True by lia.
        unfold zv. rewrite lookup_zip_with, Hve, Hrow. simpl. by rewrite Hrun.
      + rewrite list_lookup_insert_ne by done. rewrite Hkeep.
        destruct (decide (e' < e)%nat).
        * by rewrite decide_True by lia.
        * by rewrite decide_False by lia.
    - intros e' He'. destruct (decide (e' = e)) as [->|Hne].
      + rewrite lookup_app_r by lia. rewrite Hds, Nat.sub_diag. simpl.
        unfold zd. rewrite lookup_zip_with, Hve, Hrow. simpl. by rewrite Hrun.
      + rewrite lookup_app_l by lia. apply Hr. lia. }
  rewrite Hrun. simpl in *. do 2 f_equal.
  - apply list_eq. intros e. rewrite Hvs.
    case_decide as He; [done|].
    rewrite lookup_ge_None_2 by lia. symmetry. apply lookup_ge_None_2.
    unfold zv. rewrite length_zip_with. lia.
  - apply list_eq. intros e.
    destruct (decide (e < 12)%nat) as [He|He]; [by apply Hds|].
    rewrite lookup_ge_None_2 by lia. symmetry. apply lookup_ge_None_2.
    unfold zd. rewrite length_zip_with. lia.
Qed.

(** The packing loop feeds every fifo the row of dibits of its decoder. *)
Lemma pack_phase_fifos dibits (ff : list fifo_t) (oc : list Z) :
  dibits_in_range -> length dibits = 12%nat ->
  (forall e row, dibits !! e = Some row -> length row = 828%nat) ->
  length ff = 12%nat -> length oc = 2484%nat ->
  exists oc',
    for_each encoders (fun encoder => for_each slots (pack_dibit dibits encoder)) (ff, oc)
      = (None, (zip_with (fun q ds => (fifo_feed q ds).2) ff dibits, oc')) /\
    length oc' = 2484%nat.
Proof.
  intros Hrange Hd Hrows Hf Hoc. rewrite encoders_eq, slots_eq.
  set (zf := zip_with (fun q ds => (fifo_feed q ds).2) ff dibits).
  destruct (for_each_seq_inv
    (fun e (s : list fifo_t * list Z) =>
       length s.1 = 12%nat /\ length s.2 = 2484%nat /\
       forall e', s.1 !! e' = if decide (e' < e)%nat then zf !! e' else ff !! e')
    0 12 (fun encoder => for_each (seq 0 828) (pack_dibit dibits encoder)) (ff, oc))
    as ([ff' oc'] & Hrun & Hlf & Hlo & Hfs).
  { done. }
  { intros e s He (H1 & H2 & Hs).
    destruct (lookup_lt_is_Some_2 dibits e) as [row Hrow]; [lia|].
    destruct (lookup_lt_is_Some_2 ff e) as [q Hq]; [lia|].
    destruct (pack_row_feeds_fifo dibits e 828 row q s Hrange)
      as (s' & -> & H1' & H2' & He' & Hoth);
      [lia|lia|done|done|done|done|done| |].
    { by rewrite Hs, decide_False by lia. }
    exists s'. split; [done|]. split; [done|]. split; [done|].
    intros e'. destruct (decide (e' = e)) as [->|Hne].
    - rewrite He', decide_True by lia.
      unfold zf. rewrite lookup_zip_with, Hq, Hrow. simpl.
      rewrite take_ge; [done|]. rewrite (Hrows _ _ Hrow). lia.
    - rewrite Hoth, Hs by done.
      destruct (decide (e' < e)%nat).
      + by rewrite decide_True by lia.
      + by rewrite decide_False by lia. }
  exists oc'. rewrite Hrun. cbn [fst snd] in *. split; [|done]. do 2 f_equal.
  apply list_eq. intros e. rewrite Hfs.
  case_decide as He; [done|].
  rewrite lookup_ge_None_2 by lia. symmetry. apply lookup_ge_None_2.
  unfold zf. rewrite length_zip_with. lia.
Qed.

(** One turn of the outer loop advances the block by its batch, whether
    the copy loop then finds its tags or not. *)
Lemma work_batch_self io (b : nat) f :
  syms_in_range -> dibits_in_range -> wf_frame f ->
  Z.of_nat (12 * (b + 1)) * ATSC_DATA_SEGMENT_LENGTH <= Z.of_nat (length (in_ io)) ->
  exists symbols,
    gather (in_ io) (Z.of_nat b * NCODERS) = Some symbols /\
    length symbols = 12%nat /\
    self (work_batch io (Z.of_nat b * NCODERS) f).2 = advance (self f) symbols.
Proof.
  intros Hsyms Hdibits [[Hv Hf] Hoc] Hin.
  change (Z.to_nat NCODERS) with 12%nat in *.
  change (Z.to_nat OUTPUT_SIZE) with 2484%nat in *.
  unfold work_batch.
  destruct (gather_rows (in_ io) (Z.of_nat b * NCODERS) Hsyms)
    as (symbols & Hg & Hls & Hrows); [lia_consts|lia_consts|].
  exists symbols. split; [done|]. split; [done|]. rewrite Hg.
  assert (forall encoder row, symbols !! encoder = Some row -> length row = 828%nat)
    as Hrows'.
  { intros encoder row Hrow.
    destruct (Hrows encoder) as (row' & Hrow' & Hlen & _).
    { apply lookup_lt_Some in Hrow. lia. }
    congruence. }
  destruct (decode_phase symbols (viterbi (self f)) Hv Hls Hrows')
    as (vit & dibits & Hrun & _ & Hld & Hdrows).
  rewrite decode_phase_states in Hrun by done. injection Hrun as <- <-.
  rewrite decode_phase_states by done.
  destruct (pack_phase_fifos _ (fifo (self f)) (out_copy f) Hdibits Hld Hdrows Hf Hoc)
    as (oc & -> & Hloc).
  apply (for_each_preserves (fun f' : frame => self f' = advance (self f) symbols)).
  { done. }
  intros j f0 Hf0. unfold copy_segment.
  destruct (get_tags_in_window _ _ _ _ _); [done|].
  by destruct (memcpy _ _ _ _ _).
Qed.

Lemma advance_lookup c symbols e v q row :
  viterbi c !! e = Some v -> fifo c !! e = Some q -> symbols !! e = Some row ->
  viterbi (advance c symbols) !! e = Some (decode_run v row).2 /\
  fifo (advance c symbols) !! e = Some (fifo_feed q (decode_run v row).1).2.
Proof.
  intros Hv Hq Hrow. unfold advance. cbn [viterbi fifo].
  rewrite !lookup_zip_with, Hv, Hq, Hrow. done.
Qed.

(** X4. A call for one batch advances the block by the whole batch whether
    or not its positions are tagged, so also when it raises for a missing
    tag: decoder [e] has consumed the 828 samples the demultiplexer
    gathered for it, in slot order, and fifo [e] has been fed the 828
    dibits that decoder returned; no decoder or fifo is touched by the
    row of another. *)
Theorem work_consumes_batch_whatever_the_tags io f :
  syms_in_range -> dibits_in_range -> wf_frame f ->
  12 * ATSC_DATA_SEGMENT_LENGTH <= Z.of_nat (length (in_ io)) ->
  exists symbols,
    gather (in_ io) 0 = Some symbols /\
    forall e v q row,
      viterbi (self f) !! e = Some v -> fifo (self f) !! e = Some q ->
      symbols !! e = Some row ->
      viterbi (self (work io 12 f).2) !! e = Some (decode_run v row).2 /\
      fifo (self (work io 12 f).2) !! e = Some (fifo_feed q (decode_run v row).1).2.
Proof.
  intros Hsyms Hdibits Hwf Hin.
  destruct (work_batch_self io 0 f Hsyms Hdibits Hwf) as (symbols & Hg & _ & Hself).
  { lia_consts. }
  change (Z.of_nat 0 * NCODERS) with 0 in Hg, Hself.
  exists symbols. split; [done|].
  intros e v q row Hv Hq Hrow. rewrite work_12, Hself.
  by apply advance_lookup.
Qed.

End Advance.

(** * A call split in two *)

Section Split.

Context {V : atsc_single_viterbi} {M : atsc_viterbi_mux} {T : atsc_types}
        {B : build_options}.

Lemma gather_next_call io (d b : nat) :
  syms_in_range ->
  gather (in_ (next_call io (Z.of_nat (12 * d)))) (Z.of_nat b * NCODERS)
  = gather (in_ io) (Z.of_nat (d + b) * NCODERS).
Proof.
  intros Hsyms. unfold gather, next_call. cbn [in_].
  apply mapM_ext_in. intros e He.
  apply mapM_ext_in. intros k Hk.
  rewrite encoders_eq in He. rewrite slots_eq in Hk.
  apply elem_of_seq in He. apply elem_of_seq in Hk.
  specialize (Hsyms e k ltac:(lia) ltac:(lia)).
  rewrite !gather_index_eq.
  rewrite !zlookup_nat by lia_consts.
  rewrite lookup_drop. f_equal. lia_consts.
Qed.

Lemma first_tag_next_call io (d : nat) q :
  first_tag (next_call io (Z.of_nat d)) q = first_tag io (Z.of_nat d + q).
Proof.
  unfold first_tag, get_tags_in_window, next_call. cbn [in_tags nitems_read].
  f_equal. apply list_filter_iff. intros t.
  split; intros [? ?]; (split; [lia|done]).
Qed.

Lemma out_tag_next_call io (d : nat) q :
  out_tag (next_call io (Z.of_nat d)) q = out_tag io (Z.of_nat d + q).
Proof.
  unfold out_tag. rewrite first_tag_next_call.
  destruct (first_tag io (Z.of_nat d + q)) as [t|]; [|done].
  simpl. do 2 f_equal. lia.
Qed.

Lemma emitted_tags_next_call io (d a n : nat) :
  emitted_tags (next_call io (Z.of_nat d)) a n = emitted_tags io (d + a) n.
Proof.
  revert a. induction n as [|n IH]; intros a; [done|].
  unfold emitted_tags in *. simpl.
  rewrite out_tag_next_call.
  replace (Z.of_nat d + Z.of_nat a) with (Z.of_nat (d + a)) by lia.
  rewrite IH. by replace (d + S a)%nat with (S (d + a)) by lia.
Qed.

(** One turn of the outer loop on a batch whose positions are all tagged. *)
Lemma work_batch_tagged io (b : nat) f :
  syms_in_range -> dibits_in_range -> wf_frame f ->
  Z.of_nat (12 * (b + 1)) * ATSC_DATA_SEGMENT_LENGTH <= Z.of_nat (length (in_ io)) ->
  (forall j, (j < 12)%nat -> is_Some (first_tag io (Z.of_nat (12 * b + j)))) ->
  exists symbols f',
    gather (in_ io) (Z.of_nat b * NCODERS) = Some symbols /\
    work_batch io (Z.of_nat b * NCODERS) f = (None, f') /\
    wf_frame f' /\
    self f' = advance (self f) symbols /\
    out_tags f' = out_tags f ++ emitted_tags io (12 * b) 12.
Proof.
  intros Hsyms Hdibits Hwf Hin Htag.
  destruct (work_batch_self io b f Hsyms Hdibits Hwf Hin) as (symbols & Hg & _ & Hself).
  destruct (work_batch_run io b 12 f Hsyms Hdibits Hwf Hin)
    as (f' & Hrun & Hwf' & Ht & _); [lia|done|lia|].
  change (tag_outcome 12 12) with (@None failure) in Hrun.
  rewrite Hrun in Hself. exists symbols, f'. done.
Qed.

(** The batches of a call on [io], from batch [d] on, against the batches
    of the next call after [12 d] segments: they leave the same block and
    attach the same tags. *)
Lemma batches_next_call io (d nb : nat) f1 f2 :
  syms_in_range -> dibits_in_range -> wf_frame f1 -> wf_frame f2 ->
  self f1 = self f2 -> out_tags f1 = out_tags f2 ->
  Z.of_nat (12 * (d + nb)) * ATSC_DATA_SEGMENT_LENGTH <= Z.of_nat (length (in_ io)) ->
  (forall q, (12 * d <= q < 12 * (d + nb))%nat -> is_Some (first_tag io (Z.of_nat q))) ->
  exists f1' f2',
    for_each (seq d nb) (fun b => work_batch io (Z.of_nat b * NCODERS)) f1 = (None, f1') /\
    for_each (seq 0 nb)
      (fun b => work_batch (next_call io (Z.of_nat (12 * d))) (Z.of_nat b * NCODERS)) f2
      = (None, f2') /\
    wf_frame f1' /\ wf_frame f2' /\
    self f1' = self f2' /\ out_tags f1' = out_tags f2'.
Proof.
  intros Hsyms Hdibits Hwf1 Hwf2 Hself Htags Hin Htag.
  induction nb as [|nb IH].
  { exists f1, f2. done. }
  destruct IH as (g1 & g2 & Hrun1 & Hrun2 & Hg1 & Hg2 & Hs & Ht).
  { lia_consts. }
  { intros q Hq. apply Htag. lia. }
  rewrite !seq_S, !for_each_app, Hrun1, Hrun2. cbn [for_each].
  destruct (work_batch_tagged io (d + nb) g1 Hsyms Hdibits Hg1)
    as (sy1 & h1 & Hgat1 & Hb1 & Hh1 & Hself1 & Htags1).
  { lia_consts. }
  { intros j Hj. apply Htag. lia. }
  destruct (work_batch_tagged (next_call io (Z.of_nat (12 * d))) nb g2 Hsyms Hdibits Hg2)
    as (sy2 & h2 & Hgat2 & Hb2 & Hh2 & Hself2 & Htags2).
  { unfold next_call. cbn [in_]. rewrite length_drop. lia_consts. }
  { intros j Hj. rewrite first_tag_next_call.
    replace (Z.of_nat (12 * d) + Z.of_nat (12 * nb + j))
      with (Z.of_nat (12 * (d + nb) + j)) by lia.
    apply Htag. lia. }
  rewrite gather_next_call in Hgat2 by done.
  rewrite Hgat1 in Hgat2. injection Hgat2 as <-.
  change (0 + nb)%nat with nb. rewrite Hb1, Hb2.
  exists h1, h2. split; [done|]. split; [done|]. split; [done|]. split; [done|].
  split; [congruence|].
  rewrite Htags1, Htags2, Ht, emitted_tags_next_call.
  by replace (12 * d + 12 * nb)%nat with (12 * (d + nb))%nat by lia.
Qed.

(** X5. A call for [12 (na + nb)] tagged segments against two calls in a
    row, for the first [12 na] segments and for the [12 nb] that follow:
    all three return, and the two calls leave the decoders and fifos in
    the state the one call leaves them in and attach the same tags. *)
Theorem work_split_in_two_calls io (na nb : nat) f oc2 o2 :
  syms_in_range -> dibits_in_range -> wf_frame f ->
  length oc2 = Z.to_nat OUTPUT_SIZE ->
  Z.of_nat (12 * (na + nb)) * ATSC_DATA_SEGMENT_LENGTH <= Z.of_nat (length (in_ io)) ->
  (forall q, (q < 12 * (na + nb))%nat -> is_Some (first_tag io (Z.of_nat q))) ->
  let r := work io (Z.of_nat (12 * (na + nb))) f in
  let r1 := work io (Z.of_nat (12 * na)) f in
  let r2 := work (next_call io (Z.of_nat (12 * na))) (Z.of_nat (12 * nb))
              {| self := self r1.2; out_copy := oc2; out := o2;
                 out_tags := out_tags r1.2 |} in
  r.1 = returned (Z.of_nat (12 * (na + nb))) /\
  r1.1 = returned (Z.of_nat (12 * na)) /\
  r2.1 = returned (Z.of_nat (12 * nb)) /\
  self r2.2 = self r.2 /\
  out_tags r2.2 = out_tags r.2.
Proof.
  intros Hsyms Hdibits Hwf Hoc2 Hin Htag r r1 r2. subst r r1 r2.
  assert (forall m : nat, Z.rem (Z.of_nat (12 * m)) NCODERS = 0) as Hrem.
  { intros m. unfold NCODERS. replace (Z.of_nat (12 * m)) with (Z.of_nat m * 12) by lia.
    apply Z.rem_mul. lia. }
  rewrite !work_multiple by apply Hrem.
  rewrite !batch_starts_eq, !for_each_fmap.
  destruct (batches_complete io na f Hsyms Hdibits Hwf) as (fa & Hruna & Hwfa & _).
  { lia_consts. }
  { intros q Hq. apply Htag. lia. }
  rewrite seq_app, for_each_app, Hruna. cbn [fst snd].
  destruct (batches_next_call io na nb fa
              {| self := self fa; out_copy := oc2; out := o2; out_tags := out_tags fa |}
              Hsyms Hdibits Hwfa)
    as (f1' & f2' & Hrun1 & Hrun2 & _ & _ & Hself & Htags).
  { split; [apply Hwfa|done]. }
  { done. }
  { done. }
  { done. }
  { intros q Hq. apply Htag. lia. }
  change (0 + na)%nat with na. rewrite Hrun1, Hrun2. cbn [fst snd]. by rewrite Hself, Htags.
Qed.

End Split.

(** * What a call looks at *)

Section Window.

Context {V : atsc_single_viterbi} {M : atsc_viterbi_mux} {T : atsc_types}
        {B : build_options}.

Lemma gather_take (inp : list sample) (m : nat) i :
  syms_in_range -> 0 <= i ->
  (i + NCODERS) * ATSC_DATA_SEGMENT_LENGTH <= Z.of_nat m ->
  gather (take m inp) i = gather inp i.
Proof.
  intros Hsyms Hi Hm. unfold gather.
  apply mapM_ext_in. intros e He.
  apply mapM_ext_in. intros k Hk.
  rewrite encoders_eq in He. rewrite slots_eq in Hk.
  apply elem_of_seq in He. apply elem_of_seq in Hk.
  specialize (Hsyms e k ltac:(lia) ltac:(lia)).
  rewrite gather_index_eq.
  rewrite !zlookup_nat by lia_consts.
  apply lookup_take_lt. lia_consts.
Qed.

Lemma copy_segment_in_window io n i (j : nat) f :
  0 <= i + Z.of_nat j < n ->
  copy_segment (in_window io n) i j f = copy_segment io i j f.
Proof.
  intros Hq. unfold copy_segment.
  assert (get_tags_in_window (in_tags (in_window io n)) (nitems_read (in_window io n))
            (i + Z.of_nat j) (i + Z.of_nat j + 1) tag_pmt
          = get_tags_in_window (in_tags io) (nitems_read io)
              (i + Z.of_nat j) (i + Z.of_nat j + 1) tag_pmt) as ->; [|done].
  unfold get_tags_in_window, in_window. cbn [in_tags nitems_read].
  apply list_filter_filter_l. intros t [Hoff Hkey]. split; [lia|done].
Qed.

Lemma work_batch_in_window io n (b : nat) f :
  syms_in_range -> Z.of_nat (12 * (b + 1)) <= n ->
  work_batch (in_window io n) (Z.of_nat b * NCODERS) f
  = work_batch io (Z.of_nat b * NCODERS) f.
Proof.
  intros Hsyms Hn. unfold work_batch.
  assert (gather (in_ (in_window io n)) (Z.of_nat b * NCODERS)
          = gather (in_ io) (Z.of_nat b * NCODERS)) as ->.
  { unfold in_window. cbn [in_]. apply gather_take; [done|lia_consts|lia_consts]. }
  destruct (gather (in_ io) _) as [symbols|]; [|done].
  destruct (for_each encoders (decode_encoder symbols) _) as [[e|] [vit dibits]]; [done|].
  destruct (for_each encoders _ (fifo (self f), out_copy f)) as [[e|] [ff oc]]; [done|].
  apply for_each_ext_in. intros j f0 Hj.
  rewrite encoders_eq in Hj. apply elem_of_seq in Hj.
  apply copy_segment_in_window. lia_consts.
Qed.

(** X6. A call for a multiple of twelve items depends on nothing outside
    its own window: with the input cut down to the samples of its [n]
    segments and the tags cut down to the plinfo tags attached to these
    segments, [work] gives the same outcome, the same block, the same
    output and the same tags.  Samples behind the window, tags under other
    keys and tags of other positions are not looked at. *)
Theorem work_looks_only_at_its_window io n f :
  Z.rem n NCODERS = 0 ->
  syms_in_range -> work (in_window io n) n f = work io n f.
Proof.
  intros Hrem Hsyms. rewrite !work_multiple by done.
  destruct (decide (n <= 0)) as [Hn|Hn].
  { by rewrite batch_starts_nonpos. }
  assert (exists nb : nat, n = Z.of_nat (12 * nb)) as [nb ->].
  { eexists. apply rem_12_multiple; [done|lia]. }
  rewrite batch_starts_eq, !for_each_fmap.
  rewrite (for_each_ext_in (seq 0 nb)
             (fun b => work_batch (in_window io (Z.of_nat (12 * nb))) (Z.of_nat b * NCODERS))
             (fun b => work_batch io (Z.of_nat b * NCODERS))); [done|].
  intros b f0 Hb. apply elem_of_seq in Hb.
  apply work_batch_in_window; [done|lia].
Qed.

End Window.

(** * [reset] and [decoder_metrics] *)

Section ResetAndMetrics.

Context {V : atsc_single_viterbi} {M : atsc_viterbi_mux} {T : atsc_types}
        {B : build_options}.

(** X7. [reset] forgets the queued dibits and nothing else: two blocks
    with the same decoders and with twelve fifos of the same capacities
    are the same block after [reset], whatever their fifos held; and a
    second [reset] changes nothing. *)
Theorem reset_forgets_queued_dibits (c1 c2 : core) :
  length (fifo c1) = 12%nat ->
  viterbi c1 = viterbi c2 ->
  m_size <$> fifo c1 = m_size <$> fifo c2 ->
  reset c1 = reset c2 /\ reset (reset c1) = reset c1.
Proof.
  intros Hlen Hv Hsz. split.
  - apply core_eq; [by rewrite !reset_viterbi|].
    apply list_eq. intros j. rewrite !reset_fifo_lookup.
    assert ((m_size <$> fifo c1) !! j = (m_size <$> fifo c2) !! j) as Hj
      by (by rewrite Hsz).
    rewrite !list_lookup_fmap in Hj.
    destruct (fifo c1 !! j) as [q1|] eqn:H1, (fifo c2 !! j) as [q2|] eqn:H2;
      try done.
    simpl in Hj. injection Hj as Hj. case_decide.
    + simpl. unfold fifo_reset. by rewrite Hj.
    + apply lookup_lt_Some in H1. lia.
  - apply core_eq; [done|].
    apply list_eq. intros j. rewrite !reset_fifo_lookup.
    case_decide; [|done]. by destruct (fifo c1 !! j).
Qed.

Lemma decoder_metrics_run {metric} (zero : metric) (bsm : vstate -> metric) (c : core) :
  length (viterbi c) = 12%nat ->
  decoder_metrics zero bsm c = (None, bsm <$> viterbi c).
Proof.
  intros Hv. unfold decoder_metrics. rewrite encoders_eq.
  change (Z.to_nat NCODERS) with 12%nat.
  destruct (for_each_seq_inv
    (fun i (ms : list metric) =>
       length ms = 12%nat /\
       forall j, (j < i)%nat -> ms !! j = bsm <$> viterbi c !! j)
    0 12
    (fun i metrics =>
       match viterbi c !! i with
       | Some v => (None, <[i := bsm v]> metrics)
       | None => (Some out_of_bounds, metrics)
       end)
    (replicate 12 zero)) as (ms & Hrun & Hlen & Hms).
  { split; [by rewrite length_replicate|]. intros j Hj. lia. }
  { intros i ms Hi [Hlen Hms].
    destruct (lookup_lt_is_Some_2 (viterbi c) i) as [v Hvi]; [lia|].
    rewrite Hvi. eexists. split; [done|].
    split; [by rewrite length_insert|].
    intros j Hj. destruct (decide (j = i)) as [->|Hne].
    - rewrite list_lookup_insert_eq by lia. by rewrite Hvi.
    - rewrite list_lookup_insert_ne by done. apply Hms. lia. }
  rewrite Hrun. f_equal. apply list_eq. intros j.
  rewrite list_lookup_fmap.
  destruct (decide (j < 12)%nat) as [Hj|Hj]; [by apply Hms|].
  rewrite !lookup_ge_None_2 by lia. done.
Qed.

(** X8. Over the lifetime of the block [decoder_metrics] succeeds and
    returns twelve values, the metric of decoder [i] at index [i], none
    left at the zero the vector was created with; and [reset] does not
    change what it reports. *)
Theorem decoder_metrics_lists_every_decoder {metric} (zero : metric)
    (best_state_metric : vstate -> metric) (c : core) :
  reachable c ->
  decoder_metrics zero best_state_metric c
    = (None, best_state_metric <$> viterbi c) /\
  length (best_state_metric <$> viterbi c) = 12%nat /\
  decoder_metrics zero best_state_metric (reset c)
    = decoder_metrics zero best_state_metric c.
Proof.
  intros Hc. destruct (reachable_shape c Hc) as [Hv _].
  split; [by apply decoder_metrics_run|].
  split; [by rewrite length_fmap|].
  rewrite !decoder_metrics_run; [done|done|by rewrite reset_viterbi].
Qed.

End ResetAndMetrics.

(** * Bit pairs of the packed bytes *)

Lemma even_pair_in_byte b : 0 <= b -> b `mod` 2 = 0 -> 0 <= b `mod` 8 < 7.
Proof. intros Hb He. Z.div_mod_to_equations. lia. Qed.

Lemma bit_of_insert (oc : list Z) (b old r n : Z) :
  0 <= b -> b `mod` 2 = 0 -> 0 <= r < 4 -> 0 <= n ->
  oc !! Z.to_nat (b `div` 8) = Some old ->
  bit_of (<[Z.to_nat (b `div` 8) := store_dibit old (b `mod` 8) r]> oc) n =
  if decide (n = b) then Z.testbit r 0
  else if decide (n = b + 1) then Z.testbit r 1
  else bit_of oc n.
Proof.
  intros Hb Heven Hr Hn Hold. unfold bit_of.
  pose proof (even_pair_in_byte b Hb Heven) as Hsh.
  pose proof (lookup_lt_Some _ _ _ Hold) as Hlt.
  destruct (decide (n `div` 8 = b `div` 8)) as [Heq|Hne].
  - rewrite Heq, list_lookup_insert_eq by done. rewrite Hold.
    rewrite store_dibit_bits; [|lia|done|by apply Z.mod_pos_bound].
    repeat case_decide; try done; exfalso; Z.div_mod_to_equations; lia.
  - rewrite list_lookup_insert_ne.
    2:{ intros Heq. apply Hne.
        assert (0 <= n `div` 8) by (apply Z.div_pos; lia).
        assert (0 <= b `div` 8) by (apply Z.div_pos; lia). lia. }
    rewrite !decide_False; [done| |].
    + intros ->. apply Hne. Z.div_mod_to_equations. lia.
    + intros ->. done.
Qed.

Lemma pair_holds_insert (oc : list Z) (b old r : Z) :
  0 <= b -> b `mod` 2 = 0 -> 0 <= r < 4 ->
  oc !! Z.to_nat (b `div` 8) = Some old ->
  pair_holds (<[Z.to_nat (b `div` 8) := store_dibit old (b `mod` 8) r]> oc) b r.
Proof.
  intros Hb Heven Hr Hold. split.
  - rewrite bit_of_insert by (done || lia). by rewrite decide_True.
  - rewrite bit_of_insert by (done || lia).
    rewrite decide_False by lia. by rewrite decide_True.
Qed.

Lemma pair_holds_insert_other (oc : list Z) (b old r b' r' : Z) :
  0 <= b -> b `mod` 2 = 0 -> 0 <= r < 4 ->
  0 <= b' -> b' `mod` 2 = 0 -> b' <> b ->
  oc !! Z.to_nat (b `div` 8) = Some old ->
  pair_holds oc b' r' ->
  pair_holds (<[Z.to_nat (b `div` 8) := store_dibit old (b `mod` 8) r]> oc) b' r'.
Proof.
  intros Hb Heven Hr Hb' Heven' Hne Hold [H0 H1].
  assert (b' <> b + 1 /\ b' + 1 <> b) as [Hn1 Hn2].
  { split; intros Heq; Z.div_mod_to_equations; lia. }
  split.
  - rewrite bit_of_insert by (done || lia). by rewrite !decide_False by lia.
  - rewrite bit_of_insert by (done || lia). by rewrite !decide_False by lia.
Qed.

Section PackBits.

Context {V : atsc_single_viterbi} {M : atsc_viterbi_mux} {T : atsc_types}
        {B : build_options}.

Lemma stuffed_next q row (k : nat) d r :
  fifo_wf q -> row !! k = Some d ->
  (fifo_contents q ++ row) !! k = Some r ->
  (fifo_stuff (fifo_feed q (take k row)).2 d).1 = r.
Proof.
  intros Hwf Hd Hr.
  pose proof (lookup_lt_Some _ _ _ Hd) as Hk.
  apply fifo_feed_next; [done|].
  rewrite length_take, Nat.min_l by lia.
  rewrite <- (take_S_r _ _ _ Hd).
  destruct (decide (k < length (fifo_contents q))%nat) as [Hlt|Hge].
  - rewrite lookup_app_l in Hr by done. by rewrite lookup_app_l.
  - rewrite lookup_app_r in Hr by lia. rewrite lookup_app_r by lia.
    rewrite lookup_take_lt by lia. done.
Qed.

(** The first [n] turns of the packing loop for encoder [e]: its fifo is
    fed the first [n] dibits of its row, and the bit pairs of the turns
    made so far hold the dibits the fifos returned. *)
Lemma pack_row_bits dibits ff (e n : nat) row q (st : list fifo_t * list Z) :
  dibits_in_range -> dibit_pairs_distinct ->
  (e < 12)%nat -> (n <= 828)%nat ->
  length dibits = 12%nat ->
  (forall e' r, dibits !! e' = Some r -> length r = 828%nat) ->
  length st.1 = 12%nat -> length st.2 = 2484%nat ->
  dibits !! e = Some row -> ff !! e = Some q -> st.1 !! e = Some q ->
  fifo_wf q -> Forall is_dibit (fifo_contents q) -> Forall is_dibit row ->
  (forall e' k' r, (e' < e)%nat -> (k' < 828)%nat ->
     stuffed ff dibits e' k' = Some r ->
     pair_holds st.2 (enco_which_dibits e' k') r) ->
  exists st',
    for_each (seq 0 n) (pack_dibit dibits e) st = (None, st') /\
    length st'.1 = 12%nat /\ length st'.2 = 2484%nat /\
    st'.1 !! e = Some (fifo_feed q (take n row)).2 /\
    (forall e', e' <> e -> st'.1 !! e' = st.1 !! e') /\
    (forall e' k' r,
       (e' < e)%nat /\ (k' < 828)%nat \/ e' = e /\ (k' < n)%nat ->
       stuffed ff dibits e' k' = Some r ->
       pair_holds st'.2 (enco_which_dibits e' k') r).
Proof.
  intros Hrange [Heven Hinj] He Hn Hd Hrows Hf Hoc Hrow Hffe Hq Hwf Hcq Hcr Hbefore.
  destruct (for_each_seq_inv
    (fun k (s : list fifo_t * list Z) =>
       length s.1 = 12%nat /\ length s.2 = 2484%nat /\
       s.1 !! e = Some (fifo_feed q (take k row)).2 /\
       (forall e', e' <> e -> s.1 !! e' = st.1 !! e') /\
       forall e' k' r,
         (e' < e)%nat /\ (k' < 828)%nat \/ e' = e /\ (k' < k)%nat ->
         stuffed ff dibits e' k' = Some r ->
         pair_holds s.2 (enco_which_dibits e' k') r)
    0 n (pack_dibit dibits e) st) as (st' & Hrun & H'); [| |by exists st'].
  { split; [done|]. split; [done|]. split; [by rewrite take_0|]. split; [done|].
    intros e' k' r [[He' Hk']|[_ Hk']] Hst; [by apply Hbefore|lia]. }
  intros k s Hk (Hs1 & Hs2 & Hsq & Hse & Hbits).
  destruct (pack_dibit_step dibits e k s Hrange He ltac:(lia) Hd Hrows Hs1 Hs2)
    as (row' & d & q' & old & Hrow' & Hdk & Hq' & Hold & ->).
  replace row' with row in Hdk by congruence.
  replace q' with (fifo_feed q (take k row)).2 in * by congruence.
  assert (length row = 828%nat) as Hlrow by (by eapply Hrows).
  destruct (lookup_lt_is_Some_2 (fifo_contents q ++ row) k) as [r Hr].
  { rewrite length_app. lia. }
  rewrite (stuffed_next q row k d r Hwf Hdk Hr).
  assert (is_dibit r) as Hdr.
  { eapply Forall_lookup_1; [|exact Hr]. by apply Forall_app_2. }
  pose proof (Hrange e k He ltac:(lia)) as Hb.
  pose proof (Heven e k He ltac:(lia)) as Hbe.
  eexists. split; [done|]. cbn [fst snd].
  split; [by rewrite length_insert|]. split; [by rewrite length_insert|].
  split.
  { rewrite list_lookup_insert_eq by lia. f_equal.
    rewrite (take_S_r _ _ _ Hdk). by rewrite (proj1 (fifo_feed_snoc _ _ _)). }
  split.
  { intros e' Hne. rewrite list_lookup_insert_ne by done. by apply Hse. }
  intros e' k' r' Hcond Hst.
  destruct (decide (e' = e /\ k' = k)) as [[-> ->]|Hother].
  - assert (r' = r) as ->.
    { unfold stuffed in Hst. rewrite Hffe, Hrow in Hst. simpl in Hst. congruence. }
    apply pair_holds_insert; [lia|done|done|done].
  - assert ((e' < 12)%nat /\ (k' < 828)%nat) as [He' Hk'] by lia.
    apply pair_holds_insert_other; [lia|done|done| | | | done|].
    + specialize (Hrange e' k' He' Hk'). lia.
    + by apply Heven.
    + intros Heq. apply Hinj in Heq; [|done|done|done|lia]. lia.
    + apply Hbits; [lia|done].
Qed.

(** The packing loop: every fifo is fed the row of its decoder, and every
    bit pair the table names holds the dibit its fifo returned. *)
Lemma pack_phase_bits dibits (ff : list fifo_t) (oc : list Z) :
  dibits_in_range -> dibit_pairs_distinct ->
  length dibits = 12%nat ->
  (forall e row, dibits !! e = Some row -> length row = 828%nat) ->
  length ff = 12%nat -> length oc = 2484%nat ->
  (forall e q, ff !! e = Some q -> fifo_wf q /\ Forall is_dibit (fifo_contents q)) ->
  (forall e row, dibits !! e = Some row -> Forall is_dibit row) ->
  exists ff' oc',
    for_each encoders (fun encoder => for_each slots (pack_dibit dibits encoder)) (ff, oc)
      = (None, (ff', oc')) /\
    length oc' = 2484%nat /\
    forall e k r, (e < 12)%nat -> (k < 828)%nat ->
      stuffed ff dibits e k = Some r ->
      pair_holds oc' (enco_which_dibits e k) r.
Proof.
  intros Hrange Hdist Hd Hrows Hf Hoc Hff Hdib. rewrite encoders_eq, slots_eq.
  destruct (for_each_seq_inv
    (fun e (s : list fifo_t * list Z) =>
       length s.1 = 12%nat /\ length s.2 = 2484%nat /\
       (forall e', (e <= e')%nat -> s.1 !! e' = ff !! e') /\
       forall e' k' r, (e' < e)%nat -> (k' < 828)%nat ->
         stuffed ff dibits e' k' = Some r ->
         pair_holds s.2 (enco_which_dibits e' k') r)
    0 12 (fun encoder => for_each (seq 0 828) (pack_dibit dibits encoder)) (ff, oc))
    as ([ff' oc'] & Hrun & _ & Hlo & _ & Hbits).
  { split; [done|]. split; [done|]. split; [done|]. intros; lia. }
  { intros e s He (H1 & H2 & Hkeep & Hbits).
    destruct (lookup_lt_is_Some_2 dibits e) as [row Hrow]; [lia|].
    destruct (lookup_lt_is_Some_2 ff e) as [q Hq]; [lia|].
    destruct (Hff e q Hq) as [Hwf Hcq].
    destruct (pack_row_bits dibits ff e 828 row q s Hrange Hdist)
      as (s' & -> & H1' & H2' & _ & Hoth & Hbits');
      [lia|lia|done|done|done|done|done|done| |done|done| |done|].
    { rewrite Hkeep by lia. done. }
    { by eapply Hdib. }
    exists s'. split; [done|]. split; [done|]. split; [done|]. split.
    - intros e' He'. rewrite Hoth by lia. apply Hkeep. lia.
    - intros e' k' r He' Hk' Hst. apply Hbits'; [|done].
      destruct (decide (e' = e)) as [->|Hne]; [right|left]; lia. }
  exists ff', oc'. split; [done|]. split; [done|].
  intros e k r He Hk. apply Hbits; lia.
Qed.

End PackBits.

Lemma pair_holds_byte (bytes : list Z) (b r : Z) :
  0 <= b -> b `mod` 2 = 0 -> (Z.to_nat (b `div` 8) < length bytes)%nat ->
  pair_holds bytes b r ->
  exists byte,
    bytes !! Z.to_nat (b `div` 8) = Some byte /\
    Z.testbit byte (b `mod` 8) = Z.testbit r 0 /\
    Z.testbit byte (b `mod` 8 + 1) = Z.testbit r 1.
Proof.
  intros Hb Heven Hlt [H0 H1].
  assert ((b + 1) `div` 8 = b `div` 8 /\ (b + 1) `mod` 8 = b `mod` 8 + 1) as [Hd1 Hm1].
  { Z.div_mod_to_equations. lia. }
  destruct (lookup_lt_is_Some_2 bytes _ Hlt) as [byte Hbyte].
  exists byte. split; [done|].
  unfold bit_of in H0, H1. rewrite Hd1, Hm1 in H1. rewrite Hbyte in H0, H1. done.
Qed.

(** * The output of a call of one batch *)

Section OneBatchRun.

Context {V : atsc_single_viterbi} {M : atsc_viterbi_mux} {T : atsc_types}
        {B : build_options}.

(** A call for one batch whose positions are all tagged, loop by loop. *)
Lemma work_one_batch_run io f :
  syms_in_range -> dibits_in_range -> wf_frame f ->
  12 * ATSC_DATA_SEGMENT_LENGTH <= Z.of_nat (length (in_ io)) ->
  (forall j, (j < 12)%nat -> is_Some (first_tag io (Z.of_nat j))) ->
  exists symbols ff oc f',
    gather (in_ io) 0 = Some symbols /\ length symbols = 12%nat /\
    (forall e row, symbols !! e = Some row -> length row = 828%nat) /\
    for_each encoders
      (fun encoder => for_each slots
         (pack_dibit (zip_with (fun v row => (decode_run v row).1)
                        (viterbi (self f)) symbols) encoder))
      (fifo (self f), out_copy f) = (None, (ff, oc)) /\
    length oc = 2484%nat /\
    work io 12 f = (returned 12, f') /\
    out_copy f' = oc /\
    (forall x, 0 <= x < 2484 -> out f' !! x = oc !! Z.to_nat x) /\
    (forall x, ~ 0 <= x < 2484 -> out f' !! x = out f !! x).
Proof.
  intros Hsyms Hdibits [[Hv Hf] Hoc] Hin Htag.
  change (Z.to_nat NCODERS) with 12%nat in *.
  change (Z.to_nat OUTPUT_SIZE) with 2484%nat in *.
  rewrite work_multiple by done.
  change (batch_starts 12) with [0]. cbn [for_each].
  unfold work_batch.
  destruct (gather_rows (in_ io) 0 Hsyms) as (symbols & Hg & Hls & Hrows);
    [lia|lia_consts|].
  rewrite Hg.
  assert (forall e row, symbols !! e = Some row -> length row = 828%nat) as Hrows'.
  { intros encoder row Hrow.
    destruct (Hrows encoder) as (row' & Hrow' & Hlen & _).
    { apply lookup_lt_Some in Hrow. lia. }
    congruence. }
  destruct (decode_phase symbols (viterbi (self f)) Hv Hls Hrows')
    as (vit & dibits & Hrun & _ & Hld & Hdrows).
  rewrite decode_phase_states in Hrun by done. injection Hrun as <- <-.
  rewrite decode_phase_states by done.
  destruct (pack_phase _ (fifo (self f)) (out_copy f) Hdibits Hld Hdrows Hf Hoc)
    as (ff & oc & Hpack & Hsz & Hloc).
  rewrite Hpack.
  destruct (copy_loop_first_batch_full io
              {| self := {| viterbi := zip_with (fun v row => (decode_run v row).2)
                                         (viterbi (self f)) symbols;
                            fifo := ff |};
                 out_copy := oc; out := out f; out_tags := out_tags f |} Hloc Htag)
    as (f' & -> & _ & Hcopy & _ & Hin' & Hout').
  exists symbols, ff, oc, f'. done.
Qed.

(** X9. A call for one batch whose twelve positions are tagged returns 12
    and stores the 2484 bytes of [out_copy], as the packing loop left it,
    at the start of the output: segment [j] is bytes [207 j .. 207 j + 206];
    no other byte of the output changes. *)
Theorem work_one_batch_output io f :
  syms_in_range -> dibits_in_range -> wf_frame f ->
  12 * ATSC_DATA_SEGMENT_LENGTH <= Z.of_nat (length (in_ io)) ->
  (forall j, (j < 12)%nat -> is_Some (first_tag io (Z.of_nat j))) ->
  let r := work io 12 f in
  r.1 = returned 12 /\
  length (out_copy r.2) = 2484%nat /\
  (forall x, 0 <= x < 12 * ATSC_MPEG_RS_ENCODED_LENGTH ->
     out r.2 !! x = out_copy r.2 !! Z.to_nat x) /\
  (forall x, ~ 0 <= x < 12 * ATSC_MPEG_RS_ENCODED_LENGTH ->
     out r.2 !! x = out f !! x).
Proof.
  intros Hsyms Hdibits Hwf Hin Htag r. subst r.
  destruct (work_one_batch_run io f Hsyms Hdibits Hwf Hin Htag)
    as (symbols & ff & oc & f' & _ & _ & _ & _ & Hloc & -> & Hcopy & Hin' & Hout').
  cbn [fst snd]. rewrite Hcopy.
  change (12 * ATSC_MPEG_RS_ENCODED_LENGTH) with 2484. done.
Qed.

(** A call for one batch, all tagged, with dibits throughout: the bytes
    at the start of the output are those of [out_copy], in which every bit
    pair the table names holds the dibit its fifo returned. *)
Lemma work_one_batch_pairs io f :
  syms_in_range -> dibits_in_range -> dibit_pairs_distinct -> wf_frame f ->
  12 * ATSC_DATA_SEGMENT_LENGTH <= Z.of_nat (length (in_ io)) ->
  (forall j, (j < 12)%nat -> is_Some (first_tag io (Z.of_nat j))) ->
  (forall e q, fifo (self f) !! e = Some q ->
     fifo_wf q /\ Forall is_dibit (fifo_contents q)) ->
  (forall e v row, viterbi (self f) !! e = Some v ->
     Forall is_dibit (decode_run v row).1) ->
  exists symbols oc,
    gather (in_ io) 0 = Some symbols /\
    length oc = 2484%nat /\
    (forall x, 0 <= x < 2484 -> out (work io 12 f).2 !! x = oc !! Z.to_nat x) /\
    forall e k r, (e < 12)%nat -> (k < 828)%nat ->
      stuffed (fifo (self f))
        (zip_with (fun v row => (decode_run v row).1) (viterbi (self f)) symbols)
        e k = Some r ->
      pair_holds oc (enco_which_dibits e k) r.
Proof.
  intros Hsyms Hdibits Hdist Hwf Hin Htag Hfifos Hdec.
  destruct (work_one_batch_run io f Hsyms Hdibits Hwf Hin Htag)
    as (symbols & ff & oc & f' & Hg & Hls & Hrows & Hpack & Hloc & -> & _ & Hin' & _).
  exists symbols, oc. split; [done|]. split; [done|]. split; [done|].
  destruct Hwf as [[Hv Hf] Hoc].
  change (Z.to_nat NCODERS) with 12%nat in *.
  change (Z.to_nat OUTPUT_SIZE) with 2484%nat in *.
  set (dibits := zip_with (fun v row => (decode_run v row).1)
                   (viterbi (self f)) symbols) in *.
  destruct (pack_phase_bits dibits (fifo (self f)) (out_copy f) Hdibits Hdist)
    as (ff2 & oc2 & Hpack2 & _ & Hbits); [| |done|done|done| |].
  { unfold dibits. rewrite length_zip_with. lia. }
  { intros e row Hrow. apply lookup_zip_with_Some in Hrow as (v & srow & -> & _ & Hs).
    rewrite decode_run_length. by eapply Hrows. }
  { intros e row Hrow. apply lookup_zip_with_Some in Hrow as (v & srow & -> & Hve & _).
    by eapply Hdec. }
  rewrite Hpack in Hpack2. injection Hpack2 as <- <-. done.
Qed.

Lemma table_byte_index e k :
  dibits_in_range -> (e < 12)%nat -> (k < 828)%nat ->
  0 <= enco_which_dibits e k /\ 0 <= enco_which_dibits e k `div` 8 < 2484.
Proof.
  intros Hdibits He Hk. specialize (Hdibits e k He Hk).
  unfold OUTPUT_SIZE, ATSC_MPEG_RS_ENCODED_LENGTH in Hdibits.
  split; [lia|].
  split; [apply Z.div_pos; lia | apply Z.div_lt_upper_bound; lia].
Qed.

(** X10. A call for one batch, all tagged, on a table of distinct bit
    pairs and with decoders and fifos that hold dibits: for every encoder
    [e] and slot [k] the bit pair of the output that the table names holds
    the dibit the fifo of [e] returned in slot [k], which is entry [k] of
    the dibits the fifo held followed by those decoder [e] made of its 828
    samples.  Every decoded dibit thus leaves the block delayed by the
    capacity of its fifo. *)
Theorem work_one_batch_packs_every_dibit io f :
  syms_in_range -> dibits_in_range -> dibit_pairs_distinct -> wf_frame f ->
  12 * ATSC_DATA_SEGMENT_LENGTH <= Z.of_nat (length (in_ io)) ->
  (forall j, (j < 12)%nat -> is_Some (first_tag io (Z.of_nat j))) ->
  (forall e q, fifo (self f) !! e = Some q ->
     fifo_wf q /\ Forall is_dibit (fifo_contents q)) ->
  (forall e v row, viterbi (self f) !! e = Some v ->
     Forall is_dibit (decode_run v row).1) ->
  exists symbols,
    gather (in_ io) 0 = Some symbols /\
    forall e k v q row r, (e < 12)%nat -> (k < 828)%nat ->
      viterbi (self f) !! e = Some v -> fifo (self f) !! e = Some q ->
      symbols !! e = Some row ->
      (fifo_contents q ++ (decode_run v row).1) !! k = Some r ->
      exists byte,
        out (work io 12 f).2 !! (enco_which_dibits e k `div` 8) = Some byte /\
        Z.testbit byte (enco_which_dibits e k `mod` 8) = Z.testbit r 0 /\
        Z.testbit byte (enco_which_dibits e k `mod` 8 + 1) = Z.testbit r 1.
Proof.
  intros Hsyms Hdibits Hdist Hwf Hin Htag Hfifos Hdec.
  destruct (work_one_batch_pairs io f Hsyms Hdibits Hdist Hwf Hin Htag Hfifos Hdec)
    as (symbols & oc & Hg & Hloc & Hout & Hpairs).
  exists symbols. split; [done|].
  intros e k v q row r He Hk Hve Hq Hrow Hr.
  destruct (table_byte_index e k Hdibits He Hk) as [Hb Hidx].
  destruct (pair_holds_byte oc (enco_which_dibits e k) r) as (byte & Hbyte & Hbits).
  { done. }
  { by apply Hdist. }
  { lia. }
  { apply Hpairs; [done|done|].
    unfold stuffed. rewrite Hq. simpl.
    rewrite lookup_zip_with, Hve, Hrow. simpl. done. }
  exists byte. split; [|done]. by rewrite Hout.
Qed.

Lemma decode_run_dibits (v : vstate) (row : list sample) :
  decoders_give_dibits -> Forall is_dibit (decode_run v row).1.
Proof.
  intros Hdec. revert v. induction row as [|x row IH]; intros v; [by constructor|].
  simpl. specialize (Hdec v x). destruct (decode v x) as [d v1].
  specialize (IH v1). destruct (decode_run v1 row) as [ds v2].
  simpl in *. constructor; [|done].
  unfold is_dibit in *. rewrite Z.mod_small; lia.
Qed.

(** X11. The first batch after [reset] (or after construction), all
    tagged, on a table of distinct bit pairs and with decoders that return
    dibits: for every encoder the bit pairs of its first [fifo_size] slots
    come out as the fill value 0, and the bit pair of a later slot [k]
    holds the dibit the decoder returned for slot [k - fifo_size] of the
    same batch.  What the fifos held before the [reset] does not reach the
    output. *)
Theorem work_first_batch_after_reset io f c :
  syms_in_range -> dibits_in_range -> dibit_pairs_distinct ->
  decoders_give_dibits ->
  reachable c -> self f = reset c -> length (out_copy f) = 2484%nat ->
  12 * ATSC_DATA_SEGMENT_LENGTH <= Z.of_nat (length (in_ io)) ->
  (forall j, (j < 12)%nat -> is_Some (first_tag io (Z.of_nat j))) ->
  exists symbols,
    gather (in_ io) 0 = Some symbols /\
    forall e k v row, (e < 12)%nat -> (k < 828)%nat ->
      viterbi c !! e = Some v -> symbols !! e = Some row ->
      exists byte,
        out (work io 12 f).2 !! (enco_which_dibits e k `div` 8) = Some byte /\
        ((k < Z.to_nat fifo_size)%nat ->
         Z.testbit byte (enco_which_dibits e k `mod` 8) = false /\
         Z.testbit byte (enco_which_dibits e k `mod` 8 + 1) = false) /\
        (forall d, (Z.to_nat fifo_size <= k)%nat ->
           (decode_run v row).1 !! (k - Z.to_nat fifo_size)%nat = Some d ->
           Z.testbit byte (enco_which_dibits e k `mod` 8) = Z.testbit d 0 /\
           Z.testbit byte (enco_which_dibits e k `mod` 8 + 1) = Z.testbit d 1).
Proof.
  intros Hsyms Hdibits Hdist Hdec Hc Hself Hoc Hin Htag.
  assert (forall e q, fifo (self f) !! e = Some q -> q = fifo_new fifo_size) as Hnew.
  { intros e q Hq. rewrite Hself, reachable_reset_fifo, new_fifo in Hq by done.
    by apply lookup_replicate in Hq as [-> _]. }
  assert (wf_frame f) as Hwf.
  { split; [|done]. rewrite Hself. split.
    - rewrite reset_viterbi. by destruct (reachable_shape c Hc).
    - by rewrite reachable_reset_fifo, new_fifo, length_replicate. }
  destruct (work_one_batch_pairs io f Hsyms Hdibits Hdist Hwf Hin Htag)
    as (symbols & oc & Hg & Hloc & Hout & Hpairs).
  { intros e q Hq. rewrite (Hnew e q Hq), fifo_new_reset.
    split; [apply fifo_reset_wf|].
    rewrite fifo_reset_contents. apply Forall_replicate.
    unfold is_dibit, fifo_fill. lia. }
  { intros e v row _. by apply decode_run_dibits. }
  exists symbols. split; [done|].
  intros e k v row He Hk Hve Hrow.
  destruct (table_byte_index e k Hdibits He Hk) as [Hb Hidx].
  assert (stuffed (fifo (self f))
            (zip_with (fun v row => (decode_run v row).1) (viterbi (self f)) symbols) e k
          = (replicate (Z.to_nat fifo_size) fifo_fill ++ (decode_run v row).1) !! k)
    as Hst.
  { unfold stuffed.
    rewrite Hself, reachable_reset_fifo, new_fifo, reset_viterbi by done.
    rewrite lookup_replicate_2 by done. simpl.
    rewrite lookup_zip_with, Hve, Hrow. simpl.
    by rewrite fifo_new_reset, fifo_reset_contents. }
  destruct (lookup_lt_is_Some_2
              (replicate (Z.to_nat fifo_size) fifo_fill ++ (decode_run v row).1) k)
    as [r Hr].
  { rewrite length_app, decode_run_length.
    destruct (gather_rows (in_ io) 0 Hsyms) as (symbols' & Hg' & _ & Hrows);
      [lia|lia_consts|].
    rewrite Hg in Hg'. injection Hg' as <-.
    destruct (Hrows e He) as (row' & Hrow' & Hlen & _).
    replace row with row' by congruence. lia. }
  destruct (pair_holds_byte oc (enco_which_dibits e k) r) as (byte & Hbyte & H0 & H1).
  { done. }
  { by apply Hdist. }
  { lia. }
  { apply Hpairs; [done|done|]. by rewrite Hst. }
  exists byte. split; [by rewrite Hout|]. split.
  - intros Hlt. rewrite lookup_app_l in Hr by (by rewrite length_replicate).
    apply lookup_replicate in Hr as [-> _]. by rewrite H0, H1.
  - intros d Hge Hd. rewrite lookup_app_r in Hr by (rewrite length_replicate; lia).
    rewrite length_replicate in Hr. rewrite H0, H1.
    by replace r with d by congruence.
Qed.

End OneBatchRun.

(** * The fifos over the lifetime of the block *)

Lemma fifo_contents_length q :
  fifo_wf q -> length (fifo_contents q) = Z.to_nat (m_size q).
Proof.
  intros [Hlen _]. unfold fifo_contents.
  rewrite length_app, length_drop, length_take. lia.
Qed.

Lemma fifo_stuff_wf q d : fifo_wf q -> fifo_wf (fifo_stuff q d).2.
Proof.
  intros Hwf. destruct (decide (m_size q <= 0)) as [Hsz|Hsz].
  - by destruct (fifo_stuff_empty q d Hwf Hsz) as [-> _].
  - by destruct (fifo_stuff_step q d Hwf) as (o & rest & _ & _ & Hwf' & _); [lia|].
Qed.

Section FifosLifetime.

Context {V : atsc_single_viterbi} {M : atsc_viterbi_mux} {T : atsc_types}
        {B : build_options}.

Lemma pack_dibit_wf dibits e k (st : list fifo_t * list Z) :
  Forall fifo_wf st.1 -> Forall fifo_wf (pack_dibit dibits e k st).2.1.
Proof.
  intros Hwf. unfold pack_dibit.
  destruct (dibits !! e ≫= (.!! k)) as [d|]; [|done].
  destruct (st.1 !! e) as [q|] eqn:Hq; [|done].
  destruct (zlookup st.2 _) as [old|]; [|done].
  pose proof (fifo_stuff_wf q d (Forall_lookup_1 _ _ _ _ Hwf Hq)) as Hq'.
  destruct (fifo_stuff q d) as [r q']. simpl in *.
  by apply Forall_insert.
Qed.

Lemma work_batch_fifos_wf io i f :
  Forall fifo_wf (fifo (self f)) ->
  Forall fifo_wf (fifo (self (work_batch io i f).2)).
Proof.
  intros Hwf. unfold work_batch.
  destruct (gather (in_ io) i) as [symbols|]; [|done].
  destruct (for_each encoders (decode_encoder symbols) _) as [[e|] [vit dibits]]; [done|].
  pose proof (for_each_preserves
    (fun st : list fifo_t * list Z => Forall fifo_wf st.1)
    encoders (fun encoder => for_each slots (pack_dibit dibits encoder))
    (fifo (self f), out_copy f) Hwf) as Hpack.
  destruct (for_each encoders _ (fifo (self f), out_copy f)) as [r [ff oc]].
  assert (Forall fifo_wf ff) as Hff.
  { apply Hpack. intros e st Hst.
    apply (for_each_preserves (fun st : list fifo_t * list Z => Forall fifo_wf st.1));
      [done|].
    intros k st0 Hst0. by apply pack_dibit_wf. }
  destruct r as [e|]; [done|].
  apply (for_each_preserves (fun f' : frame => Forall fifo_wf (fifo (self f')))); [done|].
  intros j f0 Hf0. unfold copy_segment.
  destruct (get_tags_in_window _ _ _ _ _); [done|].
  by destruct (memcpy _ _ _ _ _).
Qed.

Lemma reachable_fifos_wf c : reachable c -> Forall fifo_wf (fifo c).
Proof.
  induction 1 as [|c Hc IH|c io n oc o ts Hc IH].
  - rewrite new_fifo. apply Forall_forall. intros q Hq.
    apply elem_of_replicate in Hq as [-> _]. apply (fifo_reset_wf (fifo_new _)).
  - apply Forall_lookup. intros j q Hq. rewrite reset_fifo_lookup in Hq.
    case_decide.
    + destruct (fifo c !! j) as [q0|]; [|done]. injection Hq as <-.
      apply fifo_reset_wf.
    + by eapply Forall_lookup_1.
  - apply (work_preserves (fun f' : frame => Forall fifo_wf (fifo (self f'))));
      [done|].
    intros i f0. apply work_batch_fifos_wf.
Qed.

(** X12. Over the lifetime of the block, through construction, [reset] and
    calls of [work] of any outcome, every fifo holds exactly as many
    dibits as the capacity chosen in the constructor and is a delay line:
    fed a row of dibits it returns the dibits it held followed by the row,
    cut to the length of the row. *)
Theorem reachable_fifos_are_delay_lines c e q :
  reachable c -> fifo c !! e = Some q ->
  length (fifo_contents q) = Z.to_nat fifo_size /\
  forall ds, (fifo_feed q ds).1 = take (length ds) (fifo_contents q ++ ds).
Proof.
  intros Hc Hq.
  pose proof (Forall_lookup_1 _ _ _ _ (reachable_fifos_wf c Hc) Hq) as Hwf.
  destruct (reachable_fifo_lookup c e q Hc Hq) as [_ Hsz].
  split.
  - by rewrite fifo_contents_length, Hsz.
  - intros ds. by apply fifo_feed_delay_line.
Qed.

End FifosLifetime.

(** * Dibits in the fifos *)

Lemma fifo_stuff_dibits q d :
  is_dibit d -> Forall is_dibit (m_fifo q) ->
  Forall is_dibit (m_fifo (fifo_stuff q d).2).
Proof.
  intros Hd Hq. unfold fifo_stuff. case_decide; [done|].
  simpl. by apply Forall_insert.
Qed.

Lemma fifo_contents_dibits q :
  Forall is_dibit (m_fifo q) -> Forall is_dibit (fifo_contents q).
Proof.
  intros Hq. unfold fifo_contents.
  apply Forall_app_2; [by apply Forall_drop | by apply Forall_take].
Qed.

Section DibitsLifetime.

Context {V : atsc_single_viterbi} {M : atsc_viterbi_mux} {T : atsc_types}
        {B : build_options}.

Lemma pack_dibit_dibits dibits e k (st : list fifo_t * list Z) :
  Forall (Forall is_dibit) dibits ->
  Forall (fun q => Forall is_dibit (m_fifo q)) st.1 ->
  Forall (fun q => Forall is_dibit (m_fifo q)) (pack_dibit dibits e k st).2.1.
Proof.
  intros Hd Hst. unfold pack_dibit.
  destruct (dibits !! e) as [row|] eqn:Hrow; [|done]. simpl.
  destruct (row !! k) as [d|] eqn:Hdk; [|done].
  destruct (st.1 !! e) as [q|] eqn:Hq; [|done].
  destruct (zlookup st.2 _) as [old|]; [|done].
  assert (is_dibit d) as Hdd.
  { eapply Forall_lookup_1; [|exact Hdk]. by eapply Forall_lookup_1. }
  pose proof (fifo_stuff_dibits q d Hdd (Forall_lookup_1 _ _ _ _ Hst Hq)) as Hq'.
  destruct (fifo_stuff q d) as [r q']. simpl in *.
  by apply Forall_insert.
Qed.

Lemma work_batch_dibits io i f :
  decoders_give_dibits ->
  Forall (fun q => Forall is_dibit (m_fifo q)) (fifo (self f)) ->
  Forall (fun q => Forall is_dibit (m_fifo q)) (fifo (self (work_batch io i f).2)).
Proof.
  intros Hdec Hf. unfold work_batch.
  destruct (gather (in_ io) i) as [symbols|]; [|done].
  pose proof (for_each_preserves
    (fun st : list vstate * list (list Z) => Forall (Forall is_dibit) st.2)
    encoders (decode_encoder symbols) (viterbi (self f), [])
    ltac:(by constructor)) as Hrows.
  destruct (for_each encoders (decode_encoder symbols) _) as [r [vit dibits]].
  assert (Forall (Forall is_dibit) dibits) as Hdibits.
  { apply Hrows. intros e st Hst. unfold decode_encoder.
    destruct (st.1 !! e) as [v|]; [|done]. destruct (symbols !! e) as [row|]; [|done].
    pose proof (decode_run_dibits v row Hdec) as Hrow.
    destruct (decode_run v row) as [ds v']. simpl in *.
    apply Forall_app_2; [done|]. by constructor. }
  destruct r as [e|]; [done|].
  pose proof (for_each_preserves
    (fun st : list fifo_t * list Z => Forall (fun q => Forall is_dibit (m_fifo q)) st.1)
    encoders (fun encoder => for_each slots (pack_dibit dibits encoder))
    (fifo (self f), out_copy f) Hf) as Hpack.
  destruct (for_each encoders _ (fifo (self f), out_copy f)) as [r [ff oc]].
  assert (Forall (fun q => Forall is_dibit (m_fifo q)) ff) as Hff.
  { apply Hpack. intros e st Hst.
    apply (for_each_preserves
      (fun st : list fifo_t * list Z =>
         Forall (fun q => Forall is_dibit (m_fifo q)) st.1)); [done|].
    intros k st0 Hst0. by apply pack_dibit_dibits. }
  destruct r as [e|]; [done|].
  apply (for_each_preserves
    (fun f' : frame => Forall (fun q => Forall is_dibit (m_fifo q)) (fifo (self f'))));
    [done|].
  intros j f0 Hf0. unfold copy_segment.
  destruct (get_tags_in_window _ _ _ _ _); [done|].
  by destruct (memcpy _ _ _ _ _).
Qed.

Lemma reachable_fifos_dibits c :
  decoders_give_dibits -> reachable c ->
  Forall (fun q => Forall is_dibit (m_fifo q)) (fifo c).
Proof.
  intros Hdec. induction 1 as [|c Hc IH|c io n oc o ts Hc IH].
  - rewrite new_fifo. apply Forall_forall. intros q Hq.
    apply elem_of_replicate in Hq as [-> _].
    apply Forall_replicate. unfold is_dibit, fifo_fill. lia.
  - apply Forall_lookup. intros j q Hq. rewrite reset_fifo_lookup in Hq.
    case_decide.
    + destruct (fifo c !! j) as [q0|]; [|done]. injection Hq as <-.
      apply Forall_replicate. unfold is_dibit, fifo_fill. lia.
    + exact (Forall_lookup_1 _ _ _ _ IH Hq).
  - apply (work_preserves
      (fun f' : frame => Forall (fun q => Forall is_dibit (m_fifo q)) (fifo (self f'))));
      [done|].
    intros i f0. by apply work_batch_dibits.
Qed.

(** X13. With decoders that return dibits, over the lifetime of the block
    (construction, [reset], calls of [work] of any outcome) the fifos
    never hold anything but dibits, so that what a fifo hands to the
    packing step, be it its fill value, a queued dibit or the dibit just
    pushed, fits the two bits it is stored in. *)
Theorem reachable_fifos_hold_dibits c e q d :
  decoders_give_dibits -> reachable c -> fifo c !! e = Some q -> is_dibit d ->
  Forall is_dibit (fifo_contents q) /\
  is_dibit (fifo_stuff q d).1.
Proof.
  intros Hdec Hc Hq Hd.
  pose proof (Forall_lookup_1 _ _ _ _ (reachable_fifos_dibits c Hdec Hc) Hq) as Hm.
  cbn beta in Hm.
  split; [by apply fifo_contents_dibits|].
  unfold fifo_stuff. case_decide; [done|]. simpl.
  destruct (m_fifo q !! m_position q) as [x|] eqn:Hx; simpl.
  - exact (Forall_lookup_1 _ _ _ _ Hm Hx).
  - unfold is_dibit, fifo_fill. lia.
Qed.

End DibitsLifetime.

(** * The further properties on the stand-ins *)

Lemma demo_dibit_pairs_distinct : @dibit_pairs_distinct demo_mux.
Proof.
  split.
  - intros e k He Hk. cbn [enco_which_dibits demo_mux].
    replace (2 * (Z.of_nat k * 12 + Z.of_nat e))
      with ((Z.of_nat k * 12 + Z.of_nat e) * 2) by lia.
    apply Z.mod_mul. lia.
  - intros e k e' k' He Hk He' Hk'. cbn [enco_which_dibits demo_mux]. lia.
Qed.

Lemma fake_decode_run_dibits (delay_of : nat -> nat) (v row : list Z) :
  Forall is_dibit v -> Forall is_dibit (@decode_run (fake_viterbi delay_of) v row).1.
Proof.
  revert v. induction row as [|x row IH]; intros v Hv; [by constructor|].
  cbn [decode_run decode fake_viterbi]. unfold fake_decode.
  assert (Forall is_dibit (v ++ [x `mod` 4])) as Hall.
  { apply Forall_app_2; [done|]. constructor; [|done].
    unfold is_dibit. apply Z.mod_pos_bound. lia. }
  destruct (v ++ [x `mod` 4]) as [|h t] eqn:Happ.
  { by destruct v. }
  apply Forall_cons in Hall as [Hh Ht]. specialize (IH t Ht).
  destruct (@decode_run (fake_viterbi delay_of) t row) as [ds v2].
  cbn [fst] in *. constructor; [|done].
  unfold is_dibit in *. rewrite Z.mod_small; lia.
Qed.

Section NewBlock.

Context {V : atsc_single_viterbi} {M : atsc_viterbi_mux} {T : atsc_types}
        {B : build_options}.

Lemma new_fifos_hold_fill e q :
  fifo atsc_viterbi_decoder_impl_new !! e = Some q ->
  fifo_wf q /\ Forall is_dibit (fifo_contents q).
Proof.
  rewrite new_fifo. intros Hq. apply lookup_replicate in Hq as [-> _].
  rewrite fifo_new_reset. split; [apply fifo_reset_wf|].
  rewrite fifo_reset_contents. apply Forall_replicate. unfold is_dibit, fifo_fill. lia.
Qed.

End NewBlock.

Section MoreOnStandIns.

#[local] Existing Instance bank_uniform.
#[local] Existing Instance demo_mux.
#[local] Existing Instance demo_types.
#[local] Existing Instance debug_build.

Lemma demo_decoders_give_dibits e (v row : list Z) :
  viterbi atsc_viterbi_decoder_impl_new !! e = Some v ->
  Forall is_dibit (decode_run v row).1.
Proof.
  intros Hv. apply fake_decode_run_dibits.
  rewrite new_viterbi, list_lookup_fmap in Hv.
  destruct (seq 0 12 !! e) as [i|]; [|done]. injection Hv as <-.
  constructor; [unfold is_dibit; lia|constructor].
Qed.

(** Twelve segments of which the second has no tag: one tag is attached. *)
Lemma work_attaches_only_delayed_input_tags_witness :
  let io := demo_io 12 0 (demo_tags_gap 12) in
  let f := demo_frame atsc_viterbi_decoder_impl_new in
  exists added,
    out_tags (work io 12 f).2 = out_tags f ++ added /\
    Z.of_nat (length added) <= Z.max 0 12 /\
    (forall k t, added !! k = Some t ->
       exists t_in, first_tag io (Z.of_nat k) = Some t_in /\
         t = {| offset := nitems_written io + Z.of_nat k; key := "plinfo";
                value := get_tag_value
                           (plinfo_delay (from_tag_value (value t_in)) NCODERS) |}) /\
    ((exists n', (work io 12 f).1 = returned n') ->
     Z.of_nat (length added) = Z.max 0 12).
Proof.
  apply (work_attaches_only_delayed_input_tags (demo_io 12 0 (demo_tags_gap 12)) 12
           (demo_frame atsc_viterbi_decoder_impl_new)).
  reflexivity.
Defined.

(** A call for minus twelve segments. *)
Lemma work_without_segments_witness :
  let f := demo_frame atsc_viterbi_decoder_impl_new in
  Z.rem (-12) NCODERS = 0 /\ -12 <= 0 /\
  work (demo_io 12 0 (demo_tags 12)) (-12) f = (returned (-12), f).
Proof.
  split; [reflexivity|]. split; [lia|].
  apply work_without_segments; [reflexivity|lia].
Defined.

(** One batch of the constant sample 0, all tagged. *)
Lemma work_returns_iff_all_tagged_witness :
  let io := demo_io 12 0 (demo_tags 12) in
  let r := work io (Z.of_nat (12 * 1)) (demo_frame atsc_viterbi_decoder_impl_new) in
  (r.1 = returned (Z.of_nat (12 * 1)) <->
   forall q, (q < 12 * 1)%nat -> is_Some (first_tag io (Z.of_nat q))) /\
  (r.1 = raised (runtime_error "No plinfo on tag") <->
   exists q, (q < 12 * 1)%nat /\ first_tag io (Z.of_nat q) = None) /\
  (r.1 = returned (Z.of_nat (12 * 1)) \/
   r.1 = raised (runtime_error "No plinfo on tag")).
Proof.
  apply (work_returns_iff_all_tagged (demo_io 12 0 (demo_tags 12)) 1
           (demo_frame atsc_viterbi_decoder_impl_new)
           demo_syms_in_range demo_dibits_in_range demo_frame_wf).
  rewrite demo_io_length. lia_consts.
Defined.

(** One batch without any tag: the call raises at its first position, and
    the decoders and fifos have taken the batch. *)
Lemma work_consumes_batch_whatever_the_tags_witness :
  let io := demo_io 12 0 [] in
  let f := demo_frame atsc_viterbi_decoder_impl_new in
  first_tag io 0 = None /\
  exists symbols,
    gather (in_ io) 0 = Some symbols /\
    forall e v q row,
      viterbi (self f) !! e = Some v -> fifo (self f) !! e = Some q ->
      symbols !! e = Some row ->
      viterbi (self (work io 12 f).2) !! e = Some (decode_run v row).2 /\
      fifo (self (work io 12 f).2) !! e = Some (fifo_feed q (decode_run v row).1).2.
Proof.
  split; [reflexivity|].
  apply (work_consumes_batch_whatever_the_tags (demo_io 12 0 [])
           (demo_frame atsc_viterbi_decoder_impl_new)
           demo_syms_in_range demo_dibits_in_range demo_frame_wf).
  rewrite demo_io_length. lia_consts.
Defined.

(** Two batches, in one call and in two. *)
Lemma work_split_in_two_calls_witness :
  let io := demo_io 24 0 (demo_tags 24) in
  let f := demo_frame atsc_viterbi_decoder_impl_new in
  let r := work io (Z.of_nat (12 * (1 + 1))) f in
  let r1 := work io (Z.of_nat (12 * 1)) f in
  let r2 := work (next_call io (Z.of_nat (12 * 1))) (Z.of_nat (12 * 1))
              {| self := self r1.2; out_copy := replicate 2484 0; out := ∅;
                 out_tags := out_tags r1.2 |} in
  r.1 = returned (Z.of_nat (12 * (1 + 1))) /\
  r1.1 = returned (Z.of_nat (12 * 1)) /\
  r2.1 = returned (Z.of_nat (12 * 1)) /\
  self r2.2 = self r.2 /\
  out_tags r2.2 = out_tags r.2.
Proof.
  apply (work_split_in_two_calls (demo_io 24 0 (demo_tags 24)) 1 1
           (demo_frame atsc_viterbi_decoder_impl_new) (replicate 2484 0) ∅
           demo_syms_in_range demo_dibits_in_range demo_frame_wf).
  - reflexivity.
  - rewrite demo_io_length. lia_consts.
  - apply demo_tagged_24.
Defined.

(** Twenty-four tagged segments, of which a call for twelve sees twelve. *)
Lemma work_looks_only_at_its_window_witness :
  let io := demo_io 24 0 (demo_tags 24) in
  let f := demo_frame atsc_viterbi_decoder_impl_new in
  length (in_tags io) = 24%nat /\
  length (in_tags (in_window io 12)) = 12%nat /\
  work (in_window io 12) 12 f = work io 12 f.
Proof.
  split; [reflexivity|]. split; [reflexivity|].
  apply (work_looks_only_at_its_window (demo_io 24 0 (demo_tags 24)) 12
           (demo_frame atsc_viterbi_decoder_impl_new));
    [reflexivity | apply demo_syms_in_range].
Defined.

(** A block whose fifos are in the middle of their buffers, against a new
    one. *)
Lemma reset_forgets_queued_dibits_witness :
  let c1 : core :=
    {| viterbi := viterbi atsc_viterbi_decoder_impl_new;
       fifo := replicate 12 {| m_size := 827; m_position := 3;
                               m_fifo := replicate 827 1 |} |} in
  let c2 : core := atsc_viterbi_decoder_impl_new in
  c1 <> c2 /\ reset c1 = reset c2 /\ reset (reset c1) = reset c1.
Proof.
  split; [discriminate|].
  apply (reset_forgets_queued_dibits
           {| viterbi := viterbi atsc_viterbi_decoder_impl_new;
              fifo := replicate 12 {| m_size := 827; m_position := 3;
                                      m_fifo := replicate 827 1 |} |}
           atsc_viterbi_decoder_impl_new); reflexivity.
Defined.

(** The metrics of a new block, with the length of the decision history
    as the metric. *)
Lemma decoder_metrics_lists_every_decoder_witness :
  let c : core := atsc_viterbi_decoder_impl_new in
  let metric_of := fun v : @vstate bank_uniform => Z.of_nat (@length Z v) in
  reachable c /\
  decoder_metrics (-1) metric_of c = (None, metric_of <$> viterbi c) /\
  length (metric_of <$> viterbi c) = 12%nat /\
  decoder_metrics (-1) metric_of (reset c) = decoder_metrics (-1) metric_of c.
Proof.
  split; [apply reachable_new|].
  apply (decoder_metrics_lists_every_decoder (V:=bank_uniform) (-1)
           (fun v : @vstate bank_uniform => Z.of_nat (@length Z v))
           atsc_viterbi_decoder_impl_new).
  apply reachable_new.
Defined.

(** One batch of the constant sample 0, all tagged. *)
Lemma work_one_batch_output_witness :
  let io := demo_io 12 0 (demo_tags 12) in
  let f := demo_frame atsc_viterbi_decoder_impl_new in
  let r := work io 12 f in
  r.1 = returned 12 /\
  length (out_copy r.2) = 2484%nat /\
  (forall x, 0 <= x < 12 * ATSC_MPEG_RS_ENCODED_LENGTH ->
     out r.2 !! x = out_copy r.2 !! Z.to_nat x) /\
  (forall x, ~ 0 <= x < 12 * ATSC_MPEG_RS_ENCODED_LENGTH ->
     out r.2 !! x = out f !! x).
Proof.
  apply (work_one_batch_output (demo_io 12 0 (demo_tags 12))
           (demo_frame atsc_viterbi_decoder_impl_new)
           demo_syms_in_range demo_dibits_in_range demo_frame_wf).
  - rewrite demo_io_length. lia_consts.
  - apply demo_tagged_12.
Defined.

(** One batch of the constant sample 2 through a new block on the
    stand-in table. *)
Lemma work_one_batch_packs_every_dibit_witness :
  let io := demo_io 12 2 (demo_tags 12) in
  let f := demo_frame atsc_viterbi_decoder_impl_new in
  exists symbols,
    gather (in_ io) 0 = Some symbols /\
    forall e k v q row r, (e < 12)%nat -> (k < 828)%nat ->
      viterbi (self f) !! e = Some v -> fifo (self f) !! e = Some q ->
      symbols !! e = Some row ->
      (fifo_contents q ++ (decode_run v row).1) !! k = Some r ->
      exists byte,
        out (work io 12 f).2 !! (enco_which_dibits e k `div` 8) = Some byte /\
        Z.testbit byte (enco_which_dibits e k `mod` 8) = Z.testbit r 0 /\
        Z.testbit byte (enco_which_dibits e k `mod` 8 + 1) = Z.testbit r 1.
Proof.
  apply (work_one_batch_packs_every_dibit (demo_io 12 2 (demo_tags 12))
           (demo_frame atsc_viterbi_decoder_impl_new)
           demo_syms_in_range demo_dibits_in_range demo_dibit_pairs_distinct
           demo_frame_wf).
  - rewrite demo_io_length. lia_consts.
  - apply demo_tagged_12.
  - intros e q. apply new_fifos_hold_fill.
  - intros e v row. apply demo_decoders_give_dibits.
Defined.

(** The first fifo of a new block. *)
Lemma reachable_fifos_are_delay_lines_witness :
  let c : core := atsc_viterbi_decoder_impl_new in
  reachable c /\ fifo c !! 0%nat = Some (fifo_new 827) /\
  length (fifo_contents (fifo_new 827)) = Z.to_nat fifo_size /\
  forall ds, (fifo_feed (fifo_new 827) ds).1
             = take (length ds) (fifo_contents (fifo_new 827) ++ ds).
Proof.
  split; [apply reachable_new|]. split; [reflexivity|].
  apply (reachable_fifos_are_delay_lines atsc_viterbi_decoder_impl_new 0
           (fifo_new 827)); [apply reachable_new|reflexivity].
Defined.

End MoreOnStandIns.

Lemma slicer_gives_dibits : @decoders_give_dibits bank_slicer.
Proof. intros v x. simpl. unfold is_dibit. apply Z.mod_pos_bound. lia. Qed.

Section OnSlicer.

#[local] Existing Instance bank_slicer.
#[local] Existing Instance demo_mux.
#[local] Existing Instance demo_types.
#[local] Existing Instance debug_build.

Lemma slicer_tagged_12 x q :
  (q < 12)%nat -> is_Some (first_tag (slicer_io 12 x (demo_tags 12)) (Z.of_nat q)).
Proof.
  revert q. apply lt_by_cases. repeat (constructor; [by eexists|]). constructor.
Qed.

(** The first fifo of a new block. *)
Lemma reachable_fifos_hold_dibits_witness :
  let c : core := atsc_viterbi_decoder_impl_new in
  reachable c /\ fifo c !! 0%nat = Some (fifo_new 827) /\ is_dibit 3 /\
  Forall is_dibit (fifo_contents (fifo_new 827)) /\
  is_dibit (fifo_stuff (fifo_new 827) 3).1.
Proof.
  split; [apply reachable_new|]. split; [reflexivity|].
  split; [unfold is_dibit; lia|].
  apply (reachable_fifos_hold_dibits atsc_viterbi_decoder_impl_new 0 (fifo_new 827) 3
           slicer_gives_dibits);
    [apply reachable_new | reflexivity | unfold is_dibit; lia].
Defined.

(** Twelve segments of the sample 7 through a block that was reset. *)
Lemma work_first_batch_after_reset_witness :
  let io := slicer_io 12 7 (demo_tags 12) in
  let c : core := atsc_viterbi_decoder_impl_new in
  let f := slicer_frame (reset c) in
  Z.to_nat fifo_size = 827%nat /\
  exists symbols,
    gather (in_ io) 0 = Some symbols /\
    forall e k v row, (e < 12)%nat -> (k < 828)%nat ->
      viterbi c !! e = Some v -> symbols !! e = Some row ->
      exists byte,
        out (work io 12 f).2 !! (enco_which_dibits e k `div` 8) = Some byte /\
        ((k < Z.to_nat fifo_size)%nat ->
         Z.testbit byte (enco_which_dibits e k `mod` 8) = false /\
         Z.testbit byte (enco_which_dibits e k `mod` 8 + 1) = false) /\
        (forall d, (Z.to_nat fifo_size <= k)%nat ->
           (decode_run v row).1 !! (k - Z.to_nat fifo_size)%nat = Some d ->
           Z.testbit byte (enco_which_dibits e k `mod` 8) = Z.testbit d 0 /\
           Z.testbit byte (enco_which_dibits e k `mod` 8 + 1) = Z.testbit d 1).
Proof.
  split; [reflexivity|].
  apply (work_first_batch_after_reset (slicer_io 12 7 (demo_tags 12))
           (slicer_frame (reset atsc_viterbi_decoder_impl_new))
           atsc_viterbi_decoder_impl_new
           demo_syms_in_range demo_dibits_in_range demo_dibit_pairs_distinct
           slicer_gives_dibits).
  - apply reachable_new.
  - reflexivity.
  - reflexivity.
  - unfold slicer_io. cbn [in_]. rewrite length_replicate. lia_consts.
  - apply slicer_tagged_12.
Defined.

End OnSlicer.
